(** * gst-python: the pipeline engine behind the binding, and its example scripts

  The repository is a scripting-language binding of a media pipeline
  library together with three example scripts ([cp.py], [f2f.py],
  [dvdplay.py]).  The scripts are embedded from their source; the engine
  operations they call ([link], [set_state], [iterate], the element
  factory) live in the native module [_gstreamer], which the package
  [gstreamer/__init__.py] imports with [from _gstreamer import *]. *)

From stdpp Require Import gmap strings list fin_maps.
From Stdlib Require Import ZArith Lia Ascii.

Set Warnings "-register-all".

Local Open Scope string_scope.

(** ** Shared vocabulary *)

(** The error taxonomy of the engine. *)
Inductive Error : Type :=
| UnknownElementType
| DuplicateName
| NotAChild
| AlreadyLinked
| NotLinked
| IncompatibleCapabilities
| StateChangeFailure
| StateChangeTimeout
| UnknownProperty
| TypeMismatch.

(** A synchronous result: success with a value, or one error of the taxonomy. *)
Inductive Result (A : Type) : Type :=
| Ok (a : A)
| Fail (e : Error).
Arguments Ok {A} a.
Arguments Fail {A} e.

Definition is_ok {A} (r : Result A) : bool :=
match r with Ok _ => true | Fail _ => false end.

(** Element states, ordered NULL(0) < READY(1) < PAUSED(2) < PLAYING(3). *)
Inductive State : Type := STATE_NULL | STATE_READY | STATE_PAUSED | STATE_PLAYING.

Definition rank (s : State) : nat :=
match s with
| STATE_NULL => 0
| STATE_READY => 1
| STATE_PAUSED => 2
| STATE_PLAYING => 3
end.

#[global] Instance State_eq_dec : EqDecision State.
Proof. solve_decision. Defined.

#[global] Instance Error_eq_dec : EqDecision Error.
Proof. solve_decision. Defined.

(** Property values the scripts pass to [set_property]. *)
Inductive Value : Type :=
| VInt (z : Z)
| VStr (s : string).

(** ** Pads and links *)

Module Pads.

Inductive Direction : Type := SRC | SINK.

Definition PadId := nat.
Definition ElemId := nat.

(** A capability descriptor: the set of data formats a pad accepts. *)
Abbreviation CapsDescriptor := (gset string).

Record Pad : Type := mkPad {
  name : string;
  direction : Direction;
  capabilities : CapsDescriptor;
  peer : option PadId;
  owner : ElemId
}.

Definition set_peer (p : Pad) (q : option PadId) : Pad :=
  {| name := name p; direction := direction p;
     capabilities := capabilities p; peer := q; owner := owner p |}.

Definition has_peer (p : Pad) : bool :=
  match peer p with Some _ => true | None => false end.

(** Two descriptors are compatible when their intersection is not empty. *)
Definition caps_intersect (c d : CapsDescriptor) : bool :=
  bool_decide (c ∩ d ≠ ∅).

(** Modelled from the spec: [link] and [unlink] are implemented in the
    native module, which is not part of the Python sources; the scripts only
    call them ([src.link(sink)] in f2f.py, [pad.link(...)] in dvdplay.py).
    Pads are objects with identity and a mutable [peer] field, so they live
    in a store keyed by pad identifier, and a link is the mutual peer
    relation between two entries.  The checks run in the order the spec
    lists them: [AlreadyLinked] first, then [IncompatibleCapabilities].
    The result is [None] when an identifier names no pad of the store, which
    no call on two pad objects can produce. *)
Definition link (g : gmap PadId Pad) (a b : PadId)
  : option (Result (gmap PadId Pad)) :=
  match g !! a, g !! b with
  | Some pa, Some pb =>
      if has_peer pa || has_peer pb then Some (Fail AlreadyLinked)
      else if negb (caps_intersect (capabilities pa) (capabilities pb))
      then Some (Fail IncompatibleCapabilities)
      else Some (Ok (<[b := set_peer pb (Some a)]>
                       (<[a := set_peer pa (Some b)]> g)))
  | _, _ => None
  end.

(** Modelled from the spec: [unlink] is the exact inverse of [link]; it
    clears both peer references of a linked pair and fails with
    [NotLinked] otherwise, in particular when a pad has no peer. *)
Definition unlink (g : gmap PadId Pad) (a b : PadId)
  : option (Result (gmap PadId Pad)) :=
  match g !! a, g !! b with
  | Some pa, Some pb =>
      if bool_decide (peer pa = Some b) && bool_decide (peer pb = Some a)
      then Some (Ok (<[b := set_peer pb None]>
                       (<[a := set_peer pa None]> g)))
      else Some (Fail NotLinked)
  | _, _ => None
  end.

(** The peer of a pad of the store, if the pad exists and is linked. *)
Definition peer_of (g : gmap PadId Pad) (a : PadId) : option PadId :=
  match g !! a with Some p => peer p | None => None end.

(** A small store used to run the operations: a source pad and two sink
    pads, the second sink accepting a format the source does not offer. *)
Definition demo_store : gmap PadId Pad :=
  <[2 := mkPad "sink" SINK {["audio/raw"]} None 12]>
  (<[1 := mkPad "sink" SINK {["video/raw"; "video/mpeg"]} None 11]>
  (<[0 := mkPad "src" SRC {["video/mpeg"]} None 10]> ∅)).

End Pads.

(** ** The element factory *)

Module Factory.
Import Pads.

Record Element : Type := mkElement {
  ename : string;
  pads : list PadId;
  state : State;
  properties : gmap string Value;
  parent : option ElemId
}.

(** The graph: every pad and every element that exists, by identifier. *)
Record Graph : Type := mkGraph {
  pad_store : gmap PadId Pad;
  elements : gmap ElemId Element
}.

(** What a registered element type provides: the pads its elements are
    created with and the default values of their properties. *)
Record PadTemplate : Type := mkTemplate {
  t_name : string;
  t_direction : Direction;
  t_caps : CapsDescriptor
}.

Record ElementType : Type := mkType {
  templates : list PadTemplate;
  defaults : gmap string Value
}.

(** The pads of a new element are added to the store under fresh
    identifiers. *)
Fixpoint add_pads (owner : ElemId) (ts : list PadTemplate)
  (store : gmap PadId Pad) : list PadId * gmap PadId Pad :=
  match ts with
  | [] => ([], store)
  | t :: ts' =>
      let id := fresh (dom store) in
      let (ids, store') :=
        add_pads owner ts'
          (<[id := mkPad (t_name t) (t_direction t) (t_caps t) None owner]> store) in
      (id :: ids, store')
  end.

(** Modelled from the spec: the factory lookup
    [createElement(typeName, instanceName)] is implemented in the native
    library ([gst_element_factory_make] and the [Element] constructor in the
    scripts).  An unregistered type name fails with [UnknownElementType] and
    leaves the graph as it is; a registered one adds a new element, in state
    NULL and without parent, together with its pads. *)
Definition createElement (registry : gmap string ElementType) (g : Graph)
  (typeName instanceName : string) : Result ElemId * Graph :=
  match registry !! typeName with
  | None => (Fail UnknownElementType, g)
  | Some ty =>
      let id := fresh (dom (elements g)) in
      let (ids, store) := add_pads id (templates ty) (pad_store g) in
      (Ok id,
       mkGraph store
               (<[id := mkElement instanceName ids STATE_NULL (defaults ty) None]>
                  (elements g)))
  end.

Definition demo_registry : gmap string ElementType :=
  <["fakesink" := mkType [mkTemplate "sink" SINK {["any"]}] ∅]>
  (<["fakesrc" := mkType [mkTemplate "src" SRC {["any"]}]
                         (<["num_buffers" := VInt (-1)]> ∅)]> ∅).

Definition empty_graph : Graph := mkGraph ∅ ∅.

End Factory.

(** ** The state machine of elements and bins *)

Module StateMachine.

(** A transition hook tells whether the move from one state to the next
    succeeds. *)
Definition Hook := State → State → bool.

(** An element is a plain element or a bin owning its children, in
    registration order. *)
Inductive Element : Type :=
| Elem (name : string) (state : State) (hook : Hook)
| Bin (name : string) (state : State) (hook : Hook) (children : list Element).

Definition state_of (e : Element) : State :=
  match e with Elem _ st _ => st | Bin _ st _ _ => st end.


Fixpoint depth (e : Element) : nat :=
  match e with
  | Elem _ _ _ => 0
  | Bin _ _ _ cs => S (fold_right (λ c d, Nat.max (depth c) d) 0 cs)
  end.



Definition min_state (a b : State) : State :=
  if (rank a <=? rank b)%nat then a else b.

(** The lowest state among the elements of a list. *)
Definition lowest (cs : list Element) : State :=
  fold_right (λ c s, min_state (state_of c) s) STATE_PLAYING cs.

(** How a state change ended: the target was reached, a child failed, the
    element's own hook failed, or the recursion budget ran out. *)
Inductive Outcome : Type := Reached | ChildFailed | HookFailed | Unfinished.




(** A bin applies the transitions of the path in order.  Going up, the
    request for the next state goes to every child before the bin's own hook
    runs; going down, after it.  When a child fails the bin stops and its
    state is the lowest state its children have reached. *)
Fixpoint bin_walk (request : State → list Element → Outcome * list Element)
  (hook : Hook) (steps : list State) (cur : State) (cs : list Element)
  : Outcome * (State * list Element) :=
  match steps with
  | [] => (Reached, (cur, cs))
  | s :: rest =>
      if (rank cur <? rank s)%nat then
        match request s cs with
        | (Reached, cs') =>
            if hook cur s then bin_walk request hook rest s cs'
            else (HookFailed, (cur, cs'))
        | (o, cs') => (o, (lowest cs', cs'))
        end
      else
        if hook cur s then
          match request s cs with
          | (Reached, cs') => bin_walk request hook rest s cs'
          | (o, cs') => (o, (lowest cs', cs'))
          end
        else (HookFailed, (cur, cs))
  end.





(** Hooks used in the examples. *)
Definition always : Hook := λ _ _, true.






End StateMachine.

(** ** The scheduler *)

Module Scheduler.

(** A unit of data, tagged with the stream it belongs to. *)
Record Buffer : Type := mkBuffer {
  stream : string;
  seqno : nat
}.

(** What happens to data pushed on a pad that has no peer. *)
Inductive Policy : Type := BufferUnlinked | DropUnlinked.

(** A source pad: its peer is given by the position, in the pipeline, of
    the element owning the peer sink pad; [held] is the data buffered on the
    pad while it has no peer. *)
Record SrcPad : Type := mkSrcPad {
  pad_name : string;
  peer : option nat;
  held : list Buffer
}.

(** What an element does in its processing step.  A source produces its
    pending buffers one per step and then signals end-of-stream, unless it is
    live, in which case it waits for more; a filter forwards on its pad
    [src]; a demultiplexer forwards on the pad named after the stream of the
    buffer; a sink consumes. *)
Inductive Role : Type :=
| Source (pending : list Buffer) (live : bool) (eos : bool)
| Filter
| Demux
| Sink (received : list Buffer).

(** [inbox] is the data buffered on the sink side of the element, in
    arrival order; [broken] tells that the processing hook fails. *)
Record Element : Type := mkElement {
  name : string;
  role : Role;
  inbox : list Buffer;
  src_pads : list SrcPad;
  broken : bool
}.

Inductive Notification : Type :=
| PadAdded (element pad : string).

(** The elements are kept in the order the scheduler visits them, sources
    first. *)
Record Pipeline : Type := mkPipeline {
  elements : list Element;
  policy : Policy;
  notifications : list Notification;
  dropped : list Buffer
}.

Definition set_elements (p : Pipeline) (es : list Element) : Pipeline :=
  mkPipeline es (policy p) (notifications p) (dropped p).

Definition set_role (e : Element) (r : Role) : Element :=
  mkElement (name e) r (inbox e) (src_pads e) (broken e).

Definition set_inbox (e : Element) (l : list Buffer) : Element :=
  mkElement (name e) (role e) l (src_pads e) (broken e).

Definition set_pads (e : Element) (ps : list SrcPad) : Element :=
  mkElement (name e) (role e) (inbox e) ps (broken e).

Definition hold (b : Buffer) (sp : SrcPad) : SrcPad :=
  mkSrcPad (pad_name sp) (peer sp) (held sp ++ [b]).

(** An element is ready when it has something to do: a source until it has
    signalled end-of-stream, any other element while its inbox holds data. *)
Definition ready (e : Element) : bool :=
  match role e with
  | Source _ _ eos => negb eos
  | _ => match inbox e with [] => false | _ :: _ => true end
  end.

(** The outcome of one processing step of an element taken alone: a buffer
    to push on one of its pads, or nothing to push. *)
Inductive Step : Type :=
| Emit (b : Buffer) (pad : string) (e' : Element)
| Quiet (e' : Element).

Definition step (e : Element) : Step :=
  match role e with
  | Source (b :: rest) live eos => Emit b "src" (set_role e (Source rest live eos))
  | Source [] live eos =>
      Quiet (if live then e else set_role e (Source [] live true))
  | Filter =>
      match inbox e with
      | b :: rest => Emit b "src" (set_inbox e rest)
      | [] => Quiet e
      end
  | Demux =>
      match inbox e with
      | b :: rest => Emit b (stream b) (set_inbox e rest)
      | [] => Quiet e
      end
  | Sink received =>
      match inbox e with
      | b :: rest => Quiet (set_inbox (set_role e (Sink (received ++ [b]))) rest)
      | [] => Quiet e
      end
  end.

(** The position of the pad with a given name among the pads of an
    element. *)
Fixpoint find_pad (pad : string) (ps : list SrcPad) : option nat :=
  match ps with
  | [] => None
  | sp :: ps' =>
      if bool_decide (pad_name sp = pad) then Some 0
      else S <$> find_pad pad ps'
  end.

(** Data arriving at the element at position [j]. *)
Definition deliver (j : nat) (b : Buffer) (p : Pipeline) : Pipeline :=
  set_elements p (alter (λ e, set_inbox e (inbox e ++ [b])) j (elements p)).

(** Data pushed on the pad [k] of element [i], which has no peer: it is
    buffered on the pad or dropped, as the policy says. *)
Definition unlinked (i k : nat) (b : Buffer) (p : Pipeline) : Pipeline :=
  match policy p with
  | BufferUnlinked =>
      set_elements p
        (alter (λ e, set_pads e (alter (hold b) k (src_pads e))) i (elements p))
  | DropUnlinked =>
      mkPipeline (elements p) (policy p) (notifications p) (dropped p ++ [b])
  end.

(** Of a buffer pushed on an unlinked pad: what the pad holds of it, and
    what is dropped of it. *)
Definition kept (pol : Policy) (b : Buffer) : list Buffer :=
  match pol with BufferUnlinked => [b] | DropUnlinked => [] end.

Definition lost (pol : Policy) (b : Buffer) : list Buffer :=
  match pol with BufferUnlinked => [] | DropUnlinked => [b] end.

(** A new, unlinked pad on element [i], with its notification. *)
Definition add_pad (i : nat) (e : Element) (pad : string) (p : Pipeline) : Pipeline :=
  mkPipeline
    (alter (λ e, set_pads e (src_pads e ++ [mkSrcPad pad None []])) i (elements p))
    (policy p)
    (notifications p ++ [PadAdded (name e) pad])
    (dropped p).

(** Modelled from the spec: dynamic pads are created by the native
    library, which is not part of the Python sources; dvdplay.py only
    subscribes to [new_pad].  Element [i] pushes [b] on its pad named
    [pad]: a pad it does not have yet is created on the spot, unlinked, and
    notified. *)
Definition push (i : nat) (e : Element) (pad : string) (b : Buffer)
  (p : Pipeline) : Pipeline :=
  match find_pad pad (src_pads e) with
  | Some k =>
      match src_pads e !! k with
      | Some sp =>
          match peer sp with
          | Some j => deliver j b p
          | None => unlinked i k b p
          end
      | None => p
      end
  | None => unlinked i (length (src_pads e)) b (add_pad i e pad p)
  end.

(** What one call of [iterate] reports. *)
Inductive Status : Type := More | Finished | StepError.

(** The scheduler visits element [i]: a ready element runs its processing
    step once; a broken hook ends the pass with an error. *)
Definition visit (i : nat) (p : Pipeline) : option Pipeline :=
  match elements p !! i with
  | None => Some p
  | Some e =>
      if ready e then
        if broken e then None
        else
          match step e with
          | Emit b pad e' => Some (push i e' pad b (set_elements p (<[i := e']> (elements p))))
          | Quiet e' => Some (set_elements p (<[i := e']> (elements p)))
          end
      else Some p
  end.

(** The elements from position [i] on are visited in order; the pass stops
    at the first error and gives back the pipeline as it was then. *)
Fixpoint visit_from (i n : nat) (p : Pipeline) : bool * Pipeline :=
  match n with
  | 0 => (true, p)
  | S n' =>
      match visit i p with
      | None => (false, p)
      | Some p' => visit_from (S i) n' p'
      end
  end.

Definition pass (p : Pipeline) : bool * Pipeline :=
  visit_from 0 (length (elements p)) p.

(** The pipeline has more work when a source has not signalled
    end-of-stream or data is buffered in flight. *)
Definition has_work (p : Pipeline) : bool := existsb ready (elements p).

(** Modelled from the spec: [iterate] is implemented in the native
    library; the scripts only call it.  One call makes one scheduling pass
    and reports whether the pipeline has more work. *)
Definition iterate (p : Pipeline) : Status * Pipeline :=
  match pass p with
  | (false, p') => (StepError, p')
  | (true, p') => (if has_work p' then More else Finished, p')
  end.


(** Modelled from the spec: linking a pad while the pipeline runs is done
    by the native library ([pad.link(...)] in dvdplay.py's [new_pad]
    handler).  The pad [pad] of element [i] is linked to the element at
    [j], between two calls of [iterate]: the data held on the pad goes to
    the new peer. *)
Definition link_pad (i : nat) (pad : string) (j : nat) (p : Pipeline)
  : option (Result Pipeline) :=
  match elements p !! i, elements p !! j with
  | Some e, Some target =>
      match find_pad pad (src_pads e) with
      | Some k =>
          match src_pads e !! k with
          | Some sp =>
              match peer sp with
              | Some _ => Some (Fail AlreadyLinked)
              | None =>
                  if (i <? j)%nat then
                    Some (Ok (set_elements p
                      (alter (λ t, set_inbox t (inbox t ++ held sp)) j
                        (alter (λ e, set_pads e
                                  (<[k := mkSrcPad pad (Some j) []]> (src_pads e)))
                               i (elements p)))))
                  else None
              end
          | None => None
          end
      | None => None
      end
  | _, _ => None
  end.





Definition is_live (e : Element) : bool :=
  match role e with Source _ live _ => live | _ => false end.


(** No element has a broken processing hook. *)
Definition unbroken (p : Pipeline) : bool :=
  forallb (λ e, negb (broken e)) (elements p).

(** The work left in an element, and in a pipeline: each unit of work
    counts once for every element it still has to pass through. *)
Definition units (e : Element) : nat :=
  match role e with
  | Source pending _ false => S (length pending)
  | Source _ _ true => 0
  | _ => length (inbox e)
  end.


(** All the data an element has, wherever it is. *)
Definition data_of (e : Element) : list Buffer :=
  (match role e with
   | Source pending _ _ => pending
   | Sink received => received
   | _ => []
   end ++ inbox e ++ concat (map held (src_pads e)))%list.



















(** The same pipeline at the moment the demultiplexer meets the first
    buffer of the audio stream. *)
Definition demo_audio : Pipeline :=
  mkPipeline
    [mkElement "src" (Source [mkBuffer "video_00" 1] false false)
       [] [mkSrcPad "src" (Some 1) []] false;
     mkElement "parse" Demux [mkBuffer "private_stream_1.0" 0]
       [mkSrcPad "video_00" (Some 2) []] false;
     mkElement "show" (Sink [mkBuffer "video_00" 0]) [] [] false;
     mkElement "osssink" (Sink []) [] [] false]
    BufferUnlinked [] [].



End Scheduler.

(** ** The binding as the scripts see it *)

Module Binding.

(** Objects handed out by the binding are identified by their instance
    name, the second argument of every constructor the scripts call. *)
Definition Obj := string.

(** A signal fired by the library: its name, the emitting object and the
    printed form of each further argument passed to the handlers. *)
Record Emission : Type := mkEmission {
  signal : string;
  sender : Obj;
  args : list string
}.

(** Everything a script does that is visible outside of it, in order: the
    calls into the binding, the calls into gtk, and the lines it prints. *)
Inductive Call : Type :=
| NewPipeline (name : string)
| NewThread (name : string)
| NewElement (type name : string)
| FactoryMake (type name : string)
| SetProperty (o : Obj) (prop : string) (v : Value)
| GetProperty (o : Obj) (prop : string)
| Connect (o : Obj) (sig : string)
| ConnectElement (o e : Obj)
| Add (bin e : Obj)
| Link (o e : Obj)
| GetPad (o : Obj) (pad : string)
| SetState (o : Obj) (s : State)
| Iterate (o : Obj)
| ThreadsInit
| ThreadsEnter
| ThreadsLeave
| IdleAdd
| GtkMain
| Print (line : string).

(** The calls of a history that reach the library: all but the printed
    lines and the calls into gtk. *)
Fixpoint library_calls (h : list Call) : list Call :=
  match h with
  | [] => []
  | Print _ :: h' => library_calls h'
  | ThreadsInit :: h' => library_calls h'
  | ThreadsEnter :: h' => library_calls h'
  | ThreadsLeave :: h' => library_calls h'
  | IdleAdd :: h' => library_calls h'
  | GtkMain :: h' => library_calls h'
  | c :: h' => c :: library_calls h'
  end.

(** The number of [iterate] calls of a history. *)
Definition is_iterate (c : Call) : bool :=
  match c with Iterate _ => true | _ => false end.

Definition iterations (h : list Call) : nat :=
  length (List.filter is_iterate h).

(** The native library is not part of the Python sources, so the scripts
    are run against an arbitrary deterministic library: given the calls it
    has received so far, most recent first (the head is the call to answer),
    it decides the truth value of what the call returns, the printed form of
    that value, and the signals fired while the call runs. *)
Record Library : Type := mkLibrary {
  answer : list Call → bool;
  reply : list Call → string;
  emits : list Call → list Emission
}.

(** The Python exceptions the scripts can raise themselves. *)
Inductive Exn : Type :=
| AssertionError
| IndexError
| ValueError
| SystemExit (code : Z).

Section Script.

(** [H] names the functions a script registers as callbacks. *)
Context {H : Type}.

Record Connection : Type := mkConnection {
  conn_obj : Obj;
  conn_signal : string;
  conn_handler : H;
  conn_data : list Obj
}.

(** [history] is kept most recent first; [trace] reads it in order. *)
Record World : Type := mkWorld {
  history : list Call;
  connected : list Connection;
  idles : list (H * list Obj)
}.

Definition start : World := mkWorld [] [] [].

Definition trace (w : World) : list Call := rev (history w).

(** The outcome of running a piece of script: it returns, it raises, or it
    is still running when the step budget is used up. *)
Inductive Res (A : Type) : Type :=
| Done (a : A) (w : World)
| Raised (e : Exn) (w : World)
| Running.
Arguments Done {A} a w.
Arguments Raised {A} e w.
Arguments Running {A}.

Definition M (A : Type) : Type := World → Res A.

#[global] Instance M_ret : MRet M := λ A a w, Done a w.

#[global] Instance M_bind : MBind M := λ A B f m w,
  match m w with
  | Done a w' => f a w'
  | Raised e w' => Raised e w'
  | Running => Running
  end.

(** [x <- m ;; k] runs [m], then [k] with the result bound to [x]. *)
Definition bind {A B} (m : M A) (k : A → M B) : M B := mbind k m.

Definition raise {A} (e : Exn) : M A := λ w, Raised e w.

Definition running {A} : M A := λ _, Running.

Definition record (c : Call) : M unit := λ w,
  Done tt (mkWorld (c :: history w) (connected w) (idles w)).

Definition get_history : M (list Call) := λ w, Done (history w) w.

Definition get_connected : M (list Connection) := λ w, Done (connected w) w.

Fixpoint for_each {A} (l : list A) (f : A → M unit) : M unit :=
  match l with
  | [] => mret tt
  | x :: l' => f x ;; for_each l' f
  end.

Variable lib : Library.

(** How the script runs one of its callbacks on one emission, with the user
    data given when the callback was connected. *)
Variable on_signal : H → Emission → list Obj → M unit.

Definition matches (em : Emission) (c : Connection) : bool :=
  bool_decide (conn_obj c = sender em) && bool_decide (conn_signal c = signal em).

(** Signals fire synchronously, in emission order, and the handlers of one
    signal run in registration order. *)
Definition dispatch (em : Emission) : M unit :=
  bind get_connected (λ cs,
  for_each (filter (λ c, matches em c = true) cs)
           (λ c, on_signal (conn_handler c) em (conn_data c))).

(** One call into the library: the call is recorded, the handlers of the
    signals it fires are run, and the truth value of its result is returned. *)
Definition call (c : Call) : M bool :=
  record c ;;
  bind get_history (λ h,
  for_each (emits lib (library_calls h)) dispatch ;;
  mret (answer lib (library_calls h))).

(** A call whose result is used as text ([get_property]). *)
Definition call_text (c : Call) : M string :=
  record c ;;
  bind get_history (λ h,
  for_each (emits lib (library_calls h)) dispatch ;;
  mret (reply lib (library_calls h))).

(** [print line] *)
Definition print (line : string) : M unit := record (Print line).

(** [assert b] *)
Definition assert (b : bool) : M unit :=
  if b then mret tt else raise AssertionError.

Definition add_connection (c : Connection) : M unit := λ w,
  Done tt (mkWorld (history w) (connected w ++ [c]) (idles w)).

(** [o.connect(signal, handler, *data)] *)
Definition connect (o : Obj) (sig : string) (h : H) (data : list Obj) : M unit :=
  call (Connect o sig) ;;
  add_connection (mkConnection o sig h data).

(** [while bin.iterate(): pass], with a budget of calls. *)
Fixpoint while_iterate (fuel : nat) (bin : Obj) : M unit :=
  match fuel with
  | 0 => running
  | S fuel' =>
      bind (call (Iterate bin)) (λ more : bool,
        if more then while_iterate fuel' bin else mret tt)
  end.

End Script.

Notation "x <- m ;; k" := (bind m (λ x, k))
  (at level 100, m at next level, right associativity).

Arguments Done {H A} a w.
Arguments Raised {H A} e w.
Arguments Running {H A}.
Arguments World : clear implicits.
Arguments Connection : clear implicits.
Arguments Res : clear implicits.
Arguments M : clear implicits.

(** A quiet piece of script returns and makes no library call. *)
Definition quiet {H} (m : M H unit) : Prop :=
  ∀ w, ∃ w', m w = Done tt w'
             ∧ library_calls (history w') = library_calls (history w).

(** [raises E m]: whenever [m] raises, the exception and the world satisfy
    [E]. *)
Definition raises {H} (E : Exn → World H → Prop) {A} (m : M H A) : Prop :=
  ∀ w e w', m w = Raised e w' → E e w'.

(** [keeps I m]: whenever [m] returns, the worlds before and after are
    related by [I]. *)
Definition keeps {H} (I : World H → World H → Prop) {A} (m : M H A) : Prop :=
  ∀ w a w', m w = Done a w' → I w w'.

(** [returns R m]: whenever [m] returns, its result satisfies [R]. *)
Definition returns {H A} (R : A → Prop) (m : M H A) : Prop :=
  ∀ w a w', m w = Done a w' → R a.

(** [gtk.idle_add(callback, *data)] *)
Definition set_idles {H} (l : list (H * list Obj)) : M H unit :=
  λ w, Done tt (mkWorld (history w) (connected w) l).

Definition get_idles {H} : M H (list (H * list Obj)) := λ w, Done (idles w) w.

Definition idle_add {H} (h : H) (data : list Obj) : M H unit :=
  record IdleAdd ;;
  now <- get_idles ;;
  set_idles (now ++ [(h, data)])%list.

(** The idle callbacks of [todo] run once each, in registration order; a
    callback that returns 0 is removed, the others are kept. *)
Fixpoint idle_pass {H} (run_idle : H → list Obj → M H Z)
  (todo kept : list (H * list Obj)) : M H (list (H * list Obj)) :=
  match todo with
  | [] => mret kept
  | (h, data) :: todo' =>
      r <- run_idle h data ;;
      if (r =? 0)%Z then idle_pass run_idle todo' kept
      else idle_pass run_idle todo' (kept ++ [(h, data)])%list
  end.

(** One round of the gtk main loop. *)
Definition idle_round {H} (run_idle : H → list Obj → M H Z) : M H unit :=
  todo <- get_idles ;;
  kept <- idle_pass run_idle todo [] ;;
  now <- get_idles ;;
  set_idles (kept ++ drop (length todo) now)%list.

Fixpoint gtk_rounds {H} (run_idle : H → list Obj → M H Z) (n : nat) : M H unit :=
  match n with
  | 0 => mret tt
  | S n' => idle_round run_idle ;; gtk_rounds run_idle n'
  end.

(** [gtk.main()] returns only after [gtk.main_quit()], which no script of
    the repository calls: the loop runs for as many rounds as the budget
    allows and is then still running. *)
Definition gtk_main {H} (run_idle : H → list Obj → M H Z) (fuel : nat) : M H unit :=
  record GtkMain ;;
  gtk_rounds run_idle fuel ;;
  running.

(** [sys.argv[i]] *)
Definition index {H} (argv : list string) (i : nat) : M H string :=
  match argv !! i with
  | Some s => mret s
  | None => raise IndexError
  end.

(** The printed form of a Python tuple whose items are already printed. *)
Definition repr_tuple (items : list string) : string :=
  match items with
  | [] => "()"
  | [x] => "(" ++ x ++ ",)"
  | x :: rest => "(" ++ x ++ fold_right (λ y acc, ", " ++ y ++ acc) ")" rest
  end.

(** The double quote character, for the messages that print one. *)
Definition dq : string := String "034"%char EmptyString.

End Binding.

(** ** examples/gst/cp.py *)

Module Cp.
Import Binding.

(** cp.py defines [update] but never connects it: the script has no
    callbacks. *)
Definition Handler := Empty_set.

Definition on_signal (h : Handler) (em : Emission) (data : list Obj)
  : M Handler unit := match h with end.

Section WithLibrary.
Variable lib : Library.
Variable fuel : nat.
Variable argv : list string.

Definition call := call (H := Handler) lib on_signal.

(** [gst_element_factory_make(type, name)]: the element, or [None]. *)
Definition gst_element_factory_make (type name : string)
  : M Handler (option Obj) :=
  found <- call (FactoryMake type name) ;;
  mret (if found then Some name else None).

(** The linking loop of [filter]:
    [previous = None; for e in elements: if previous: previous.connect(e); previous = e] *)
Fixpoint connect_all (previous : option Obj) (elements : list Obj)
  : M Handler unit :=
  match elements with
  | [] => mret tt
  | e :: rest =>
      match previous with
      | Some p => call (ConnectElement p e) ;; mret tt
      | None => mret tt
      end ;;
      connect_all (Some e) rest
  end.

Definition filter (filters : list Obj) : M Handler Z :=
  if negb (length argv =? 3)%nat then
    argv0 <- index argv 0 ;;
    print ("usage: " ++ argv0 ++ " source dest") ;;
    mret (-1)%Z
  else
    bin <- (call (NewPipeline "pipeline") ;; mret "pipeline") ;;
    filesrc <- gst_element_factory_make "filesrc" "source" ;;
    match filesrc with
    | None =>
        print ("could not find plugin " ++ dq ++ "filesrc" ++ dq) ;;
        mret (-1)%Z
    | Some filesrc =>
        argv1 <- index argv 1 ;;
        call (SetProperty filesrc "location" (VStr argv1)) ;;
        filesink <- gst_element_factory_make "filesink" "sink" ;;
        match filesink with
        | None =>
            print ("could not find plugin " ++ dq ++ "filesink" ++ dq) ;;
            mret (-1)%Z
        | Some filesink =>
            argv2 <- index argv 2 ;;
            call (SetProperty filesink "location" (VStr argv2)) ;;
            let elements := ([filesrc] ++ filters ++ [filesink])%list in
            for_each elements (λ e, call (Add bin e) ;; mret tt) ;;
            connect_all None elements ;;
            call (SetState bin STATE_PLAYING) ;;
            while_iterate lib on_signal fuel bin ;;
            call (SetState bin STATE_NULL) ;;
            mret 0%Z
        end
    end.

Definition main : M Handler Z :=
  stats <- gst_element_factory_make "statistics" "stats" ;;
  match stats with
  | None =>
      print ("could not find plugin " ++ dq ++ "statistics" ++ dq) ;;
      mret (-1)%Z
  | Some stats =>
      call (SetProperty stats "silent" (VInt 0)) ;;
      call (SetProperty stats "buffer_update_freq" (VInt 1)) ;;
      call (SetProperty stats "update_on_eos" (VInt 1)) ;;
      filter [stats]
  end.

(** [if __name__ == '__main__': ret = main(); sys.exit(ret)] *)
Definition program : M Handler unit :=
  ret <- main ;;
  raise (SystemExit ret).

End WithLibrary.

Definition is_iterate (c : Call) : bool :=
  match c with Iterate _ => true | _ => false end.

(** The calls that create and configure the statistics element, most
    recent first. *)
Definition configured : list Call :=
  [SetProperty "stats" "update_on_eos" (VInt 1);
   SetProperty "stats" "buffer_update_freq" (VInt 1);
   SetProperty "stats" "silent" (VInt 0);
   FactoryMake "statistics" "stats"].

(** The calls made once the pipeline has been built from [src] to [dst] and
    set to PLAYING, most recent first. *)
Definition playing (src dst : string) : list Call :=
  [SetState "pipeline" STATE_PLAYING;
   ConnectElement "stats" "sink"; ConnectElement "source" "stats";
   Add "pipeline" "sink"; Add "pipeline" "stats"; Add "pipeline" "source";
   SetProperty "sink" "location" (VStr dst);
   FactoryMake "filesink" "sink";
   SetProperty "source" "location" (VStr src);
   FactoryMake "filesrc" "source"; NewPipeline "pipeline"] ++ configured.

(** What the library answers at the points where the script asks. *)
Definition stats_found (lib : Library) : bool :=
  answer lib [FactoryMake "statistics" "stats"].

Definition filesrc_found (lib : Library) : bool :=
  answer lib (FactoryMake "filesrc" "source" :: NewPipeline "pipeline"
              :: configured).

Definition filesink_found (lib : Library) (src : string) : bool :=
  answer lib (FactoryMake "filesink" "sink"
              :: SetProperty "source" "location" (VStr src)
              :: FactoryMake "filesrc" "source" :: NewPipeline "pipeline"
              :: configured).

(** The answer of the call number [k] (from 0) of [bin.iterate()]. *)
Definition more_work (lib : Library) (src dst : string) (k : nat) : bool :=
  answer lib (repeat (Iterate "pipeline") (S k) ++ playing src dst).

(** Setup fails: the operand count is not two, or a plugin is not found. *)
Definition setup_fails (lib : Library) (operands : list string) : Prop :=
  length operands ≠ 2%nat
  ∨ stats_found lib = false
  ∨ filesrc_found lib = false
  ∨ ∃ src dst, operands = [src; dst] ∧ filesink_found lib src = false.

(** A library with every plugin installed whose pipeline has work for
    three iterations. *)
Definition three_passes : Library :=
  mkLibrary
    (λ h, match h with
          | Iterate _ :: h' =>
              bool_decide (iterations h' < 3)%nat
          | _ => true
          end)
    (λ _, EmptyString)
    (λ _, []).

(** A library without the [statistics] plugin. *)
Definition no_statistics : Library :=
  mkLibrary
    (λ h, match h with
          | FactoryMake "statistics" _ :: _ => false
          | _ => true
          end)
    (λ _, EmptyString)
    (λ _, []).

(** A library without the [filesink] plugin. *)
Definition no_filesink : Library :=
  mkLibrary
    (λ h, match h with
          | FactoryMake "filesink" _ :: _ => false
          | _ => true
          end)
    (λ _, EmptyString)
    (λ _, []).

End Cp.

(** ** examples/gst/f2f.py *)

Module F2f.
Import Binding.

(** The script connects one callback, [handoff]. *)
Inductive Handler : Type := handoff_cb.

(** [def handoff(sender, *args): print sender.get_name(), args] *)
Definition handoff (sender : Obj) (args : list string) : M Handler unit :=
  print (sender ++ " " ++ repr_tuple args).

Definition on_signal (h : Handler) (em : Emission) (data : list Obj)
  : M Handler unit :=
  match h with
  | handoff_cb => handoff (sender em) (args em ++ data)%list
  end.

Section WithLibrary.
Variable lib : Library.
Variable fuel : nat.

Definition call := call (H := Handler) lib on_signal.

Definition main : M Handler unit :=
  truth <- call (NewPipeline "pipeline") ;;
  let bin := "pipeline" in
  assert truth ;;
  call (NewElement "fakesrc" "src") ;;
  let src := "src" in
  connect lib on_signal src "handoff" handoff_cb [] ;;
  call (SetProperty src "silent" (VInt 1)) ;;
  call (SetProperty src "num_buffers" (VInt 10)) ;;
  call (NewElement "fakesink" "sink") ;;
  let sink := "sink" in
  connect lib on_signal sink "handoff" handoff_cb [] ;;
  call (SetProperty src "silent" (VInt 1)) ;;
  for_each [src; sink] (λ e, call (Add bin e) ;; mret tt) ;;
  res <- call (Link src sink) ;;
  assert res ;;
  res <- call (SetState bin STATE_PLAYING) ;;
  assert res ;;
  while_iterate lib on_signal fuel bin ;;
  res <- call (SetState bin STATE_NULL) ;;
  assert res.

(** [if __name__ == '__main__': main()]: the command line is not read. *)
Definition program (argv : list string) : M Handler unit := main.

End WithLibrary.

(** The library calls made up to and including [set_state(STATE_PLAYING)],
    most recent first. *)
Definition playing : list Call :=
  [SetState "pipeline" STATE_PLAYING; Link "src" "sink";
   Add "pipeline" "sink"; Add "pipeline" "src";
   SetProperty "src" "silent" (VInt 1);
   Connect "sink" "handoff"; NewElement "fakesink" "sink";
   SetProperty "src" "num_buffers" (VInt 10);
   SetProperty "src" "silent" (VInt 1);
   Connect "src" "handoff"; NewElement "fakesrc" "src";
   NewPipeline "pipeline"].

(** The results the script asserts are true. *)
Definition asserts_hold (lib : Library) (n : nat) : Prop :=
  answer lib [NewPipeline "pipeline"] = true
  ∧ answer lib (tail playing) = true
  ∧ answer lib playing = true
  ∧ answer lib (SetState "pipeline" STATE_NULL
                :: repeat (Iterate "pipeline") (S n) ++ playing) = true.

(** The answer of the call number [k] (from 0) of [bin.iterate()]. *)
Definition more_work (lib : Library) (k : nat) : bool :=
  answer lib (repeat (Iterate "pipeline") (S k) ++ playing).

(** A library whose pipeline hands one buffer from [src] to [sink] in each
    of ten iterations, firing [handoff] on both. *)
Definition ten_buffers : Library :=
  mkLibrary
    (λ h, match h with
          | Iterate _ :: h' => bool_decide (iterations h' < 10)%nat
          | _ => true
          end)
    (λ _, EmptyString)
    (λ h, match h with
          | Iterate _ :: h' =>
              if bool_decide (iterations h' < 10)%nat
              then [mkEmission "handoff" "src" ["buffer"];
                    mkEmission "handoff" "sink" ["buffer"]]
              else []
          | _ => []
          end).

End F2f.

(** ** examples/gstreamer/dvdplay.py *)

Module DvdPlay.
Import Binding.

(** The bound methods of [DVDPlayer] that the script registers. *)
Inductive Handler : Type :=
| idle_cb
| eof_cb
| mpegparse_newpad_cb
| dnprint_cb.

(** The attributes of [self] hold the objects built by [build]; an object
    is named by its instance name. *)
Definition pipeline : Obj := "pipeline".
Definition src : Obj := "src".
Definition parse : Obj := "parse".
Definition v_thread : Obj := "v_thread".
Definition v_queue : Obj := "v_queue".
Definition v_decode : Obj := "decode_video".
Definition color : Obj := "color".
Definition efx : Obj := "identity".
Definition color2 : Obj := "color2".
Definition show : Obj := "show".
Definition deinterlace : Obj := "deinterlace".
Definition a_thread : Obj := "a_thread".
Definition a_queue : Obj := "a_queue".
Definition a_decode : Obj := "decode_audio".
Definition osssink : Obj := "osssink".

(** The pad object returned by [element.get_pad(name)]. *)
Definition pad_of (element : Obj) (name : string) : Obj :=
  element ++ ":" ++ name.

Section WithLibrary.
Variable lib : Library.

(** Python's [int] on a string: the number, or [None] where it raises
    [ValueError]. *)
Variable int : string → option Z.

Section Methods.
(** The binding, with the callbacks it can trigger from here. *)
Variable call : Call → M Handler bool.
Variable call_text : Call → M Handler string.

Definition idle (pipeline : Obj) : M Handler Z :=
  call (Iterate pipeline) ;;
  mret 1%Z.

Definition eof (sender : Obj) : M Handler unit :=
  print "EOS, quiting" ;;
  raise (SystemExit 0).

Definition mpegparse_newpad (parser pad pipeline_arg : Obj) : M Handler unit :=
  print ("***** a new pad " ++ pad ++ " was created") ;;
  if bool_decide (String.substring 0 6 pad = "video_") then
    call (GetPad v_queue "sink") ;;
    call (Link pad (pad_of v_queue "sink")) ;;
    call (SetState pipeline STATE_PAUSED) ;;
    call (Add pipeline v_thread) ;;
    call (SetState pipeline STATE_PLAYING) ;;
    mret tt
  else if bool_decide (pad = "private_stream_1.0") then
    call (GetPad a_queue "sink") ;;
    call (Link pad (pad_of a_queue "sink")) ;;
    call (SetState pipeline STATE_PAUSED) ;;
    call (Add pipeline a_thread) ;;
    call (SetState pipeline STATE_PLAYING) ;;
    mret tt
  else
    print ("unknown pad: " ++ pad).

Definition dnprint (sender obj param : string) : M Handler unit :=
  str <- call_text (GetProperty obj param) ;;
  print (sender ++ ": " ++ param ++ " = " ++ str).

(** The loop of [build_video_thread]:
    [for e in (...): self.v_thread.add(e); if last: last.link(e); last = e] *)
Fixpoint add_and_link (thread : Obj) (last : option Obj) (elements : list Obj)
  : M Handler unit :=
  match elements with
  | [] => mret tt
  | e :: rest =>
      call (Add thread e) ;;
      match last with
      | Some l => call (Link l e) ;; mret tt
      | None => mret tt
      end ;;
      add_and_link thread (Some e) rest
  end.

Definition build_video_thread : M Handler unit :=
  call (NewThread "v_thread") ;;
  call (NewElement "queue" "v_queue") ;;
  call (NewElement "mpeg2dec" "decode_video") ;;
  call (NewElement "colorspace" "color") ;;
  call (NewElement "identity" "identity") ;;
  call (NewElement "colorspace" "color2") ;;
  call (NewElement "xvideosink" "show") ;;
  call (NewElement "identity" "deinterlace") ;;
  add_and_link v_thread None
    [v_queue; v_decode; color; efx; color2; deinterlace; show].

Definition build_audio_thread : M Handler unit :=
  call (NewThread "a_thread") ;;
  call (NewElement "queue" "a_queue") ;;
  call (NewElement "a52dec" "decode_audio") ;;
  call (NewElement "osssink" "osssink") ;;
  for_each [a_queue; a_decode; osssink] (λ e, call (Add a_thread e) ;; mret tt) ;;
  call (Link a_queue a_decode) ;;
  call (Link a_decode osssink) ;;
  mret tt.

(** [o.connect(signal, handler, *data)] of this script. *)
Definition connect (o : Obj) (sig : string) (h : Handler) (data : list Obj)
  : M Handler unit :=
  call (Connect o sig) ;;
  add_connection (mkConnection o sig h data).

Definition build (location : string) (title chapter angle : Z) : M Handler Z :=
  call (NewPipeline "pipeline") ;;
  call (NewElement "dvdreadsrc" "src") ;;
  connect src "deep_notify" dnprint_cb [] ;;
  call (SetProperty src "location" (VStr location)) ;;
  call (SetProperty src "title" (VInt title)) ;;
  call (SetProperty src "chapter" (VInt chapter)) ;;
  call (SetProperty src "angle" (VInt angle)) ;;
  call (NewElement "mpegdemux" "parse") ;;
  call (SetProperty parse "sync" (VInt 0)) ;;
  call (Add pipeline src) ;;
  call (Add pipeline parse) ;;
  call (Link src parse) ;;
  build_video_thread ;;
  build_audio_thread ;;
  connect parse "new_pad" mpegparse_newpad_cb [pipeline] ;;
  connect src "eos" eof_cb [] ;;
  mret 0%Z.

End Methods.

(** A callback called by the binding with the sender, the arguments of the
    signal and the user data.  A call whose argument count does not fit the
    method is reported by the binding and does nothing.  [depth] bounds how
    deep callbacks can nest: a callback calls the library, which can fire
    signals in turn. *)
Fixpoint on_signal (depth : nat) (h : Handler) (em : Emission) (data : list Obj)
  : M Handler unit :=
  match depth with
  | 0 => running
  | S depth' =>
      let call := Binding.call lib (on_signal depth') in
      let call_text := Binding.call_text lib (on_signal depth') in
      match h, (args em ++ data)%list with
      | eof_cb, [] => eof (sender em)
      | mpegparse_newpad_cb, [pad; pipeline_arg] =>
          mpegparse_newpad call (sender em) pad pipeline_arg
      | dnprint_cb, [obj; param] => dnprint call_text (sender em) obj param
      | _, _ => mret tt
      end
  end.

Definition call (depth : nat) : Call → M Handler bool :=
  Binding.call lib (on_signal depth).

(** The idle callbacks as the gtk main loop runs them. *)
Definition run_idle (depth : nat) (h : Handler) (data : list Obj) : M Handler Z :=
  match h, data with
  | idle_cb, [pipeline_arg] => idle (call depth) pipeline_arg
  | _, _ => mret 0%Z
  end.

Definition run (fuel : nat) : M Handler Z :=
  print "setting to PLAYING state" ;;
  record ThreadsEnter ;;
  call fuel (SetState pipeline STATE_PLAYING) ;;
  idle_add idle_cb [pipeline] ;;
  gtk_main (run_idle fuel) fuel ;;
  call fuel (SetState pipeline STATE_NULL) ;;
  record ThreadsLeave ;;
  mret 0%Z.

(** [DVDPlayer.main] *)
Definition player_main (fuel : nat) (location : string) (title chapter angle : Z)
  : M Handler Z :=
  ret <- build (call fuel) location title chapter angle ;;
  if negb (ret =? 0)%Z then mret ret else run fuel.

Definition to_int (s : string) : M Handler Z :=
  match int s with
  | Some z => mret z
  | None => raise ValueError
  end.

(** The module-level [main(args)], which reads [sys.argv]. *)
Definition main (fuel : nat) (argv : list string) : M Handler Z :=
  if (length argv <? 5)%nat then
    argv0 <- index argv 0 ;;
    print ("usage: " ++ argv0 ++ " dvdlocation title chapter angle") ;;
    mret (-1)%Z
  else
    location <- index argv 1 ;;
    arg2 <- index argv 2 ;;
    title <- to_int arg2 ;;
    arg3 <- index argv 3 ;;
    chapter <- to_int arg3 ;;
    arg4 <- index argv 4 ;;
    angle <- to_int arg4 ;;
    player_main fuel location title chapter angle.

(** The script: [gtk.threads_init()] at import, then
    [sys.exit(main(sys.argv))]. *)
Definition program (fuel : nat) (argv : list string) : M Handler unit :=
  record ThreadsInit ;;
  ret <- main fuel argv ;;
  raise (SystemExit ret).

End WithLibrary.

(** The only exit the player itself can take: [sys.exit(0)] in [eof], right
    after its message. *)
Definition eof_exit (e : Exn) (w : World Handler) : Prop :=
  e = SystemExit 0 ∧ ∃ h, history w = Print "EOS, quiting" :: h.

(** The idle callbacks are the same and no [iterate] call was made. *)
Definition same_idles (w w' : World Handler) : Prop :=
  idles w' = idles w ∧ iterations (history w') = iterations (history w).

(** A library whose [iterate] reports no more work from the first call on
    and which fires no signal. *)
Definition always_done : Library :=
  mkLibrary (λ _, false) (λ _, EmptyString) (λ _, []).

(** A library whose source fires [eos] during the third [iterate]. *)
Definition eos_at_third : Library :=
  mkLibrary
    (λ _, true)
    (λ _, EmptyString)
    (λ h, match h with
          | Iterate _ :: h' =>
              if bool_decide (iterations h' = 2%nat)
              then [mkEmission "eos" "src" []] else []
          | _ => []
          end).

(** Python's [int] on the decimal numerals used in the examples. *)
Definition int_digit (s : string) : option Z :=
  match s with
  | "0" => Some 0%Z
  | "1" => Some 1%Z
  | "2" => Some 2%Z
  | "3" => Some 3%Z
  | _ => None
  end.

End DvdPlay.

(** ** Reading the runs of the scripts *)

Module Runs.
Import Binding.

(** The world once [events] have been added to its history, the most recent
    first. *)
Definition after {H} (events : list Call) (w : World H) : World H :=
  mkWorld (events ++ history w) (connected w) (idles w).

(** A library that fires no signal. *)
Definition silent (lib : Library) : Prop := ∀ h, emits lib h = [].

(** [f] applied to each element of a list and the element that follows
    it. *)
Definition successive (f : Obj → Obj → Call) (es : list Obj) : list Call :=
  zip_with f es (tail es).

(** [always P m]: when every event recorded so far satisfies [P], so does
    every event recorded once [m] has returned or raised. *)
Definition always {H A} (P : Call → Prop) (m : M H A) : Prop :=
  ∀ w, Forall P (history w) →
       match m w with
       | Done _ w' => Forall P (history w')
       | Raised _ w' => Forall P (history w')
       | Running => True
       end.

(** [registers cs m]: whenever [m] returns, the callbacks [cs] have been
    connected, in this order, and the idle callbacks are the same. *)
Definition registers {H A} (cs : list (Connection H)) (m : M H A) : Prop :=
  ∀ w a w', m w = Done a w' →
            connected w' = (connected w ++ cs)%list ∧ idles w' = idles w.

(** A library with every plugin installed whose [iterate] always reports
    more work and which fires no signal. *)
Definition never_done : Library :=
  mkLibrary (λ _, true) (λ _, EmptyString) (λ _, []).

(** A library on which every call reports failure. *)
Definition refusing : Library :=
  mkLibrary (λ _, false) (λ _, EmptyString) (λ _, []).

(** *** cp.py *)

(** The elements [filter] puts in the pipeline: [[filesrc] + filters + [filesink]]. *)
Definition cp_elements (filters : list Obj) : list Obj :=
  "source" :: filters ++ ["sink"].

(** The calls by which [filter] builds and starts the pipeline, most recent
    first. *)
Definition cp_built (src dst : string) (filters : list Obj) : list Call :=
  SetState "pipeline" STATE_PLAYING
  :: rev (successive ConnectElement (cp_elements filters))
  ++ rev (map (Add "pipeline") (cp_elements filters))
  ++ [SetProperty "sink" "location" (VStr dst);
      FactoryMake "filesink" "sink";
      SetProperty "source" "location" (VStr src);
      FactoryMake "filesrc" "source";
      NewPipeline "pipeline"].

(** The message [filter] and [main] print for a plugin they do not find. *)
Definition not_found (plugin : string) : Call :=
  Print ("could not find plugin " ++ dq ++ plugin ++ dq).

(** *** f2f.py *)

(** The callbacks f2f.py has connected once both elements exist. *)
Definition handoffs : list (Connection F2f.Handler) :=
  [mkConnection "src" "handoff" F2f.handoff_cb [];
   mkConnection "sink" "handoff" F2f.handoff_cb []].

(** The signals that reach [handoff]: [handoff] fired by [src] or [sink]. *)
Definition handed_off (em : Emission) : bool :=
  bool_decide (signal em = "handoff")
  && (bool_decide (sender em = "src") || bool_decide (sender em = "sink")).

(** The line [handoff] prints for a signal: the name of the sender and the
    tuple of the other arguments. *)
Definition handoff_line (em : Emission) : Call :=
  Print (sender em ++ " " ++ repr_tuple (args em)).

(** A [set_property] call on the fake sink. *)
Definition configures_sink (c : Call) : bool :=
  match c with
  | SetProperty o _ _ => bool_decide (o = "sink")
  | _ => false
  end.

(** *** dvdplay.py *)

(** The calls of the loop of [build_video_thread] on a tuple of elements, in
    order: the first element is added, then each further element is added
    and linked to the one before it. *)
Definition chain (thread : Obj) (es : list Obj) : list Call :=
  match es with
  | [] => []
  | e :: rest =>
      Add thread e
      :: concat (zip_with (λ l e', [Add thread e'; Link l e']) es rest)
  end.

(** What [mpegparse_newpad] does with a pad it knows, most recent first: the
    pad is linked to the sink pad of [queue], and [thread] is added to the
    pipeline while the pipeline is paused. *)
Definition plugged (pad queue thread : Obj) : list Call :=
  [SetState DvdPlay.pipeline STATE_PLAYING;
   Add DvdPlay.pipeline thread;
   SetState DvdPlay.pipeline STATE_PAUSED;
   Link pad (DvdPlay.pad_of queue "sink");
   GetPad queue "sink"].

(** The first line [mpegparse_newpad] prints. *)
Definition announced (pad : Obj) : Call :=
  Print ("***** a new pad " ++ pad ++ " was created").

(** The callbacks [build] connects, in order. *)
Definition callbacks : list (Connection DvdPlay.Handler) :=
  [mkConnection DvdPlay.src "deep_notify" DvdPlay.dnprint_cb [];
   mkConnection DvdPlay.parse "new_pad" DvdPlay.mpegparse_newpad_cb
                [DvdPlay.pipeline];
   mkConnection DvdPlay.src "eos" DvdPlay.eof_cb []].

(** The calls that undo what [run] sets up: the pipeline back to NULL, and
    the gtk lock released. *)
Definition tears_down (c : Call) : bool :=
  match c with
  | SetState _ STATE_NULL => true
  | ThreadsLeave => true
  | _ => false
  end.

(** A library whose only signal is [eos], fired by the source during the
    call number [k] (from 0) of [iterate]. *)
Definition eos_during (k : nat) (lib : Library) : Prop :=
  ∀ h, emits lib h
       = match h with
         | Iterate _ :: h' =>
             if bool_decide (iterations h' = k)
             then [mkEmission "eos" DvdPlay.src []] else []
         | _ => []
         end.

(** The usage line of dvdplay.py. *)
Definition usage (argv0 : string) : Call :=
  Print ("usage: " ++ argv0 ++ " dvdlocation title chapter angle").

End Runs.

(** * Properties *)

Module PadsFacts.
Import Pads.

Lemma set_peer_same (p : Pad) : set_peer p (peer p) = p.
Proof. by destruct p. Qed.

Lemma set_peer_set_peer (p : Pad) (q r : option PadId) :
  set_peer (set_peer p q) r = set_peer p r.
Proof. done. Qed.

Lemma has_peer_false (p : Pad) : has_peer p = false ↔ peer p = None.
Proof. unfold has_peer. destruct (peer p); split; congruence. Qed.

Lemma caps_intersect_true (c d : CapsDescriptor) :
  caps_intersect c d = true ↔ c ∩ d ≠ ∅.
Proof. unfold caps_intersect. apply bool_decide_eq_true. Qed.

Lemma peer_of_lookup (g : gmap PadId Pad) (a : PadId) (p : Pad) :
  g !! a = Some p → peer_of g a = peer p.
Proof. intros H. unfold peer_of. by rewrite H. Qed.

(** What a successful [link] requires and what store it returns. *)
Lemma link_ok_inv (g g' : gmap PadId Pad) (a b : PadId) (pa pb : Pad) :
  g !! a = Some pa → g !! b = Some pb →
  link g a b = Some (Ok g') →
  peer pa = None ∧ peer pb = None ∧
  capabilities pa ∩ capabilities pb ≠ ∅ ∧
  g' = <[b := set_peer pb (Some a)]> (<[a := set_peer pa (Some b)]> g).
Proof.
  intros Ha Hb. unfold link. rewrite Ha, Hb.
  destruct (has_peer pa) eqn:Epa; [discriminate|].
  destruct (has_peer pb) eqn:Epb; [discriminate|]. cbn.
  destruct (caps_intersect _ _) eqn:Ec; [|discriminate]. cbn.
  intros [= <-]. repeat split.
  - by apply has_peer_false.
  - by apply has_peer_false.
  - by apply caps_intersect_true.
Qed.

Lemma link_ok_intro (g : gmap PadId Pad) (a b : PadId) (pa pb : Pad) :
  g !! a = Some pa → g !! b = Some pb →
  peer pa = None → peer pb = None →
  capabilities pa ∩ capabilities pb ≠ ∅ →
  link g a b = Some (Ok (<[b := set_peer pb (Some a)]>
                           (<[a := set_peer pa (Some b)]> g))).
Proof.
  intros Ha Hb Pa Pb Hc. unfold link. rewrite Ha, Hb.
  apply has_peer_false in Pa, Pb. rewrite Pa, Pb. cbn.
  apply caps_intersect_true in Hc. by rewrite Hc.
Qed.

(** C1: for pads [a] and [b] of the store, [link] succeeds exactly when the
    capability descriptors intersect and neither pad has a peer; after a
    success each pad is the peer of the other; and when either pad already
    has a peer the call fails with [AlreadyLinked]. *)
Theorem link_iff_compatible_and_free
  (g : gmap PadId Pad) (a b : PadId) (pa pb : Pad) :
  g !! a = Some pa → g !! b = Some pb →
  ((∃ g', link g a b = Some (Ok g')) ↔
     (capabilities pa ∩ capabilities pb ≠ ∅ ∧ peer pa = None ∧ peer pb = None))
  ∧ (∀ g', link g a b = Some (Ok g') →
       peer_of g' a = Some b ∧ peer_of g' b = Some a)
  ∧ (peer pa ≠ None ∨ peer pb ≠ None →
       link g a b = Some (Fail AlreadyLinked)).
Proof.
  intros Ha Hb. split; [|split].
  - split.
    + intros [g' Hl]. destruct (link_ok_inv _ _ _ _ _ _ Ha Hb Hl) as (?&?&?&?).
      done.
    + intros (Hc & Pa & Pb). eexists. by apply link_ok_intro.
  - intros g' Hl. destruct (link_ok_inv _ _ _ _ _ _ Ha Hb Hl) as (Pa&Pb&Hc&->).
    unfold peer_of. split.
    + destruct (decide (a = b)) as [->|Hne].
      * by rewrite lookup_insert_eq.
      * rewrite lookup_insert_ne, lookup_insert_eq by done. done.
    + by rewrite lookup_insert_eq.
  - intros Hp. unfold link. rewrite Ha, Hb.
    unfold has_peer. destruct (peer pa), (peer pb); cbn; try done.
    destruct Hp; congruence.
Qed.

Lemma link_iff_compatible_and_free_witness :
  (∃ g', link demo_store 0 1 = Some (Ok g'))
  ∧ link demo_store 0 2 = Some (Fail IncompatibleCapabilities).
Proof.
  split; [|by vm_compute].
  apply (link_iff_compatible_and_free demo_store 0 1
           (mkPad "src" SRC {["video/mpeg"]} None 10)
           (mkPad "sink" SINK {["video/raw"; "video/mpeg"]} None 11)).
  - reflexivity.
  - reflexivity.
  - cbn. split; [|done]. apply caps_intersect_true. vm_compute. reflexivity.
Defined.

(** C2: for peerless pads [a] and [b], a successful [link] followed by
    [unlink] on the same pair gives back the store as it was, so both pads
    are peerless again; and [unlink] on a pad without a peer fails with
    [NotLinked]. *)
Theorem unlink_after_link_restores
  (g : gmap PadId Pad) (a b : PadId) (pa pb : Pad) :
  g !! a = Some pa → g !! b = Some pb →
  (peer pa = None → peer pb = None →
     capabilities pa ∩ capabilities pb ≠ ∅ →
     ∃ g', link g a b = Some (Ok g') ∧ unlink g' a b = Some (Ok g)
           ∧ peer_of g a = None ∧ peer_of g b = None)
  ∧ (∀ g', link g a b = Some (Ok g') → unlink g' a b = Some (Ok g))
  ∧ (peer pa = None ∨ peer pb = None → unlink g a b = Some (Fail NotLinked)).
Proof.
  intros Ha Hb.
  assert (Hround : ∀ g', link g a b = Some (Ok g') →
                         unlink g' a b = Some (Ok g)).
  { intros g' Hl.
    destruct (link_ok_inv _ _ _ _ _ _ Ha Hb Hl) as (Pa&Pb&Hc&->).
    unfold unlink. rewrite lookup_insert_eq.
    destruct (decide (a = b)) as [->|Hne].
    - rewrite lookup_insert_eq. cbn.
      rewrite !bool_decide_eq_true_2 by done. cbn.
      do 2 f_equal. rewrite !insert_insert_eq.
      apply insert_id.
      by rewrite set_peer_set_peer, <- Pb, set_peer_same.
    - rewrite lookup_insert_ne, lookup_insert_eq by done. cbn.
      rewrite !bool_decide_eq_true_2 by done. cbn.
      do 2 f_equal. apply map_eq. intros i.
      destruct (decide (i = b)) as [->|Hib].
      + by rewrite lookup_insert_eq, set_peer_set_peer, <- Pb, set_peer_same.
      + rewrite lookup_insert_ne by done.
        destruct (decide (i = a)) as [->|Hia].
        * by rewrite lookup_insert_eq, set_peer_set_peer, <- Pa, set_peer_same.
        * by rewrite !lookup_insert_ne by done. }
  split; [|split; [exact Hround|]].
  - intros Pa Pb Hc. eexists. split; [by apply link_ok_intro|].
    split; [apply Hround; by apply link_ok_intro|].
    by rewrite (peer_of_lookup _ _ _ Ha), (peer_of_lookup _ _ _ Hb).
  - intros Hp. unfold unlink. rewrite Ha, Hb.
    destruct Hp as [Hp|Hp]; rewrite Hp.
    + by rewrite bool_decide_eq_false_2.
    + rewrite (bool_decide_eq_false_2 (None = Some a)) by done.
      by rewrite andb_false_r.
Qed.

Lemma unlink_after_link_restores_witness :
  ∃ g', link demo_store 0 1 = Some (Ok g')
        ∧ unlink g' 0 1 = Some (Ok demo_store)
        ∧ peer_of demo_store 0 = None ∧ peer_of demo_store 1 = None.
Proof.
  apply (unlink_after_link_restores demo_store 0 1
           (mkPad "src" SRC {["video/mpeg"]} None 10)
           (mkPad "sink" SINK {["video/raw"; "video/mpeg"]} None 11)).
  - reflexivity.
  - reflexivity.
  - reflexivity.
  - reflexivity.
  - apply caps_intersect_true. vm_compute. reflexivity.
Defined.

End PadsFacts.



(** ** Scripts whose callbacks only print *)

Module BindingFacts.
Import Binding.

Section Quiet.
Context {H : Type}.
Variable lib : Library.
Variable on_signal : H → Emission → list Obj → M H unit.

Hypothesis on_signal_quiet : ∀ h em data, quiet (on_signal h em data).

Lemma for_each_quiet {A} (l : list A) (f : A → M H unit) :
  (∀ x, quiet (f x)) → quiet (for_each l f).
Proof.
  intros Hf. induction l as [|x l IH]; intros w; cbn.
  - by exists w.
  - unfold mbind, M_bind. destruct (Hf x w) as (w1 & -> & H1).
    destruct (IH w1) as (w2 & -> & H2). exists w2. split; [done|congruence].
Qed.

Lemma dispatch_quiet (em : Emission) : quiet (dispatch on_signal em).
Proof.
  intros w. unfold dispatch, bind, mbind, M_bind, get_connected.
  apply for_each_quiet. intros c. apply on_signal_quiet.
Qed.

(** A call is answered from the library calls made so far and adds itself
    to them; the callbacks it triggers add nothing. *)
Lemma call_quiet (c : Call) (w : World H) :
  ∃ w', call lib on_signal c w
        = Done (answer lib (library_calls (c :: history w))) w'
        ∧ library_calls (history w') = library_calls (c :: history w).
Proof.
  unfold call, bind, mbind, M_bind, record, get_history.
  destruct (for_each_quiet (emits lib (library_calls (c :: history w)))
              (dispatch on_signal) dispatch_quiet
              (mkWorld (c :: history w) (connected w) (idles w)))
    as (w' & Hw & Hh).
  exists w'. cbn [history]. rewrite Hw. done.
Qed.

Lemma connect_quiet (o : Obj) (sig : string) (h : H) (data : list Obj) (w : World H) :
  ∃ w', connect lib on_signal o sig h data w = Done tt w'
        ∧ library_calls (history w') = Connect o sig :: library_calls (history w).
Proof.
  unfold connect, mbind, M_bind, add_connection.
  destruct (call_quiet (Connect o sig) w) as (w' & -> & Hh).
  eexists. split; [done|]. done.
Qed.

Lemma repeat_shift {A} (x : A) (n : nat) (l : list A) :
  (repeat x n ++ x :: l = repeat x (S n) ++ l)%list.
Proof. induction n as [|n IH]; cbn; [done|]. by rewrite IH. Qed.

(** The driver loop: when the first [n] calls of [iterate] ask for more and
    the next one does not, the loop makes [n + 1] calls and returns. *)
Lemma while_iterate_quiet (bin : Obj) (n : nat) :
  ∀ (fuel : nat) (w : World H),
  (∀ k, k < n →
     answer lib (repeat (Iterate bin) (S k) ++ library_calls (history w)) = true) →
  answer lib (repeat (Iterate bin) (S n) ++ library_calls (history w)) = false →
  n < fuel →
  ∃ w', while_iterate lib on_signal fuel bin w = Done tt w'
        ∧ library_calls (history w')
          = (repeat (Iterate bin) (S n) ++ library_calls (history w))%list.
Proof.
  induction n as [|n IH]; intros fuel w Hmore Hlast Hfuel;
    (destruct fuel as [|fuel]; [lia|]); cbn [while_iterate];
    unfold bind, mbind, M_bind;
    destruct (call_quiet (Iterate bin) w) as (w1 & -> & H1);
    cbn [library_calls] in *.
  - cbn in Hlast. rewrite Hlast. by exists w1.
  - pose proof (Hmore 0%nat ltac:(lia)) as H0. cbn in H0. rewrite H0.
    destruct (IH fuel w1) as (w2 & -> & H2).
    + intros k Hk. rewrite H1, repeat_shift. apply Hmore. lia.
    + by rewrite H1, repeat_shift.
    + lia.
    + exists w2. split; [done|]. by rewrite H2, H1, repeat_shift.
Qed.

End Quiet.

(** ** What a script can raise, and what it leaves unchanged *)

Section Outcomes.
Context {H : Type}.

Variable E : Exn → World H → Prop.

Lemma raises_ret {A} (a : A) : raises E (mret a : M H A).
Proof. intros w e w'. discriminate. Qed.

Lemma raises_bind {A B} (m : M H A) (k : A → M H B) :
  raises E m → (∀ a, raises E (k a)) → raises E (m ≫= k).
Proof.
  intros Hm Hk w e w'. unfold mbind, M_bind.
  destruct (m w) as [a w1|e1 w1|] eqn:Hmw; [apply Hk| |discriminate].
  intros [= <- <-]. by eapply Hm.
Qed.

Lemma raises_running {A} : raises E (running : M H A).
Proof. intros w e w'. discriminate. Qed.

Lemma raises_record (c : Call) : raises E (record c : M H unit).
Proof. intros w e w'. discriminate. Qed.

Lemma raises_get_history : raises E (get_history : M H _).
Proof. intros w e w'. discriminate. Qed.

Lemma raises_get_connected : raises E (get_connected : M H _).
Proof. intros w e w'. discriminate. Qed.

Lemma raises_get_idles : raises E (get_idles : M H _).
Proof. intros w e w'. discriminate. Qed.

Lemma raises_set_idles (l : list (H * list Obj)) : raises E (set_idles l).
Proof. intros w e w'. discriminate. Qed.

Lemma raises_add_connection (c : Connection H) : raises E (add_connection c).
Proof. intros w e w'. discriminate. Qed.

Lemma raises_for_each {A} (l : list A) (f : A → M H unit) :
  (∀ x, raises E (f x)) → raises E (for_each l f).
Proof.
  intros Hf. induction l as [|x l IH]; cbn; [apply raises_ret|].
  apply raises_bind; [apply Hf|intros _; apply IH].
Qed.

Section Calls.
Variable lib : Library.
Variable on_signal : H → Emission → list Obj → M H unit.
Hypothesis on_signal_raises : ∀ h em data, raises E (on_signal h em data).

Lemma raises_dispatch (em : Emission) : raises E (dispatch on_signal em).
Proof.
  unfold dispatch, bind. apply raises_bind; [apply raises_get_connected|].
  intros cs. apply raises_for_each. intros c. apply on_signal_raises.
Qed.

Lemma raises_call (c : Call) : raises E (call lib on_signal c).
Proof.
  unfold call, bind. apply raises_bind; [apply raises_record|]. intros _.
  apply raises_bind; [apply raises_get_history|]. intros h.
  apply raises_bind; [|intros _; apply raises_ret].
  apply raises_for_each, raises_dispatch.
Qed.

Lemma raises_call_text (c : Call) : raises E (call_text lib on_signal c).
Proof.
  unfold call_text, bind. apply raises_bind; [apply raises_record|]. intros _.
  apply raises_bind; [apply raises_get_history|]. intros h.
  apply raises_bind; [|intros _; apply raises_ret].
  apply raises_for_each, raises_dispatch.
Qed.

End Calls.

Lemma returns_bind {A B} (R : B → Prop) (m : M H A) (k : A → M H B) :
  (∀ a, returns R (k a)) → returns R (m ≫= k).
Proof.
  intros Hk w b w'. unfold mbind, M_bind.
  destruct (m w) as [a w1|e1 w1|]; [apply Hk|discriminate..].
Qed.

Lemma returns_bind_value {A B} (Q : A → Prop) (R : B → Prop)
  (m : M H A) (k : A → M H B) :
  returns Q m → (∀ a, Q a → returns R (k a)) → returns R (m ≫= k).
Proof.
  intros Hm Hk w b w'. unfold mbind, M_bind.
  destruct (m w) as [a w1|e1 w1|] eqn:Hmw; [|discriminate..].
  eapply Hk. by eapply Hm.
Qed.

Lemma returns_raise {A} (R : A → Prop) (e : Exn) : returns R (raise e : M H A).
Proof. intros w a w'. discriminate. Qed.

Lemma returns_running {A} (R : A → Prop) : returns R (running : M H A).
Proof. intros w a w'. discriminate. Qed.

Lemma returns_ret {A} (R : A → Prop) (a : A) : R a → returns R (mret a : M H A).
Proof. intros Ha w b w' [= <- <-]. done. Qed.

Lemma raises_gtk_rounds (run_idle : H → list Obj → M H Z) (n : nat) :
  (∀ h data, raises E (run_idle h data)) → raises E (gtk_rounds run_idle n).
Proof.
  intros Hr. induction n as [|n IH]; cbn [gtk_rounds]; [apply raises_ret|].
  apply raises_bind; [|intros _; apply IH].
  unfold idle_round, bind. apply raises_bind; [apply raises_get_idles|].
  intros todo. apply raises_bind.
  - generalize (@nil (H * list Obj)).
    induction todo as [|[h data] todo IHt]; intros kept; cbn [idle_pass].
    + apply raises_ret.
    + unfold bind. apply raises_bind; [apply Hr|]. intros r.
      destruct (r =? 0)%Z; apply IHt.
  - intros kept. apply raises_bind; [apply raises_get_idles|].
    intros now. apply raises_set_idles.
Qed.

Lemma raises_gtk_main (run_idle : H → list Obj → M H Z) (fuel : nat) :
  (∀ h data, raises E (run_idle h data)) → raises E (gtk_main run_idle fuel).
Proof.
  intros Hr. unfold gtk_main. apply raises_bind; [apply raises_record|].
  intros _. apply raises_bind; [by apply raises_gtk_rounds|].
  intros _. apply raises_running.
Qed.

(** The gtk main loop never returns. *)
Lemma gtk_main_never_returns (run_idle : H → list Obj → M H Z) (fuel : nat) :
  returns (λ _, False) (gtk_main run_idle fuel).
Proof.
  unfold gtk_main. apply returns_bind. intros _. apply returns_bind.
  intros _. apply returns_running.
Qed.

Variable I : World H → World H → Prop.
Hypothesis I_refl : ∀ w, I w w.
Hypothesis I_trans : ∀ w1 w2 w3, I w1 w2 → I w2 w3 → I w1 w3.

Lemma keeps_ret {A} (a : A) : keeps I (mret a : M H A).
Proof. intros w b w' [= <- <-]. apply I_refl. Qed.

Lemma keeps_bind {A B} (m : M H A) (k : A → M H B) :
  keeps I m → (∀ a, keeps I (k a)) → keeps I (m ≫= k).
Proof.
  intros Hm Hk w b w'. unfold mbind, M_bind.
  destruct (m w) as [a w1|e1 w1|] eqn:Hmw; [|discriminate..].
  intros Hkw. eapply I_trans; [by eapply Hm|by eapply Hk].
Qed.

Lemma keeps_raise {A} (e : Exn) : keeps I (raise e : M H A).
Proof. intros w a w'. discriminate. Qed.

Lemma keeps_running {A} : keeps I (running : M H A).
Proof. intros w a w'. discriminate. Qed.

Lemma keeps_get_history : keeps I (get_history : M H _).
Proof. intros w a w' [= <- <-]. apply I_refl. Qed.

Lemma keeps_get_connected : keeps I (get_connected : M H _).
Proof. intros w a w' [= <- <-]. apply I_refl. Qed.

Lemma keeps_for_each {A} (l : list A) (f : A → M H unit) :
  (∀ x, keeps I (f x)) → keeps I (for_each l f).
Proof.
  intros Hf. induction l as [|x l IH]; cbn; [apply keeps_ret|].
  apply keeps_bind; [apply Hf|intros _; apply IH].
Qed.

Section CallsKeep.
Variable lib : Library.
Variable on_signal : H → Emission → list Obj → M H unit.
Hypothesis on_signal_keeps : ∀ h em data, keeps I (on_signal h em data).

Lemma keeps_dispatch (em : Emission) : keeps I (dispatch on_signal em).
Proof.
  unfold dispatch, bind. apply keeps_bind; [apply keeps_get_connected|].
  intros cs. apply keeps_for_each. intros c. apply on_signal_keeps.
Qed.

Lemma keeps_call (c : Call) :
  keeps I (record c : M H unit) → keeps I (call lib on_signal c).
Proof.
  intros Hc. unfold call, bind. apply keeps_bind; [apply Hc|]. intros _.
  apply keeps_bind; [apply keeps_get_history|]. intros h.
  apply keeps_bind; [|intros _; apply keeps_ret].
  apply keeps_for_each, keeps_dispatch.
Qed.

Lemma keeps_call_text (c : Call) :
  keeps I (record c : M H unit) → keeps I (call_text lib on_signal c).
Proof.
  intros Hc. unfold call_text, bind. apply keeps_bind; [apply Hc|]. intros _.
  apply keeps_bind; [apply keeps_get_history|]. intros h.
  apply keeps_bind; [|intros _; apply keeps_ret].
  apply keeps_for_each, keeps_dispatch.
Qed.

End CallsKeep.

End Outcomes.

End BindingFacts.

(** ** cp.py *)

Module CpFacts.
Import Binding BindingFacts Cp.

Lemma no_connection (w : World Handler) : connected w = [].
Proof. destruct (connected w) as [|c ?]; [done|]. destruct (conn_handler c). Qed.

Lemma for_each_dispatch (lib : Library) (ems : list Emission) (w : World Handler) :
  for_each ems (dispatch (H := Handler) on_signal) w = Done tt w.
Proof.
  induction ems as [|em ems IH]; [done|].
  cbn. unfold mbind, M_bind, dispatch, bind, mbind, M_bind, get_connected.
  rewrite no_connection. cbn. apply IH.
Qed.

(** A call of cp.py: it is recorded and answered, and no callback runs. *)
Lemma run_call (lib : Library) (c : Call) (w : World Handler) :
  Binding.call lib on_signal c w =
  Done (answer lib (library_calls (c :: history w)))
       (mkWorld (c :: history w) (connected w) (idles w)).
Proof.
  unfold Binding.call, bind, mbind, M_bind, record, get_history. cbn.
  by rewrite for_each_dispatch.
Qed.

Ltac run :=
  repeat (first [ rewrite run_call
                | progress unfold call, bind, mbind, M_bind, mret, M_ret,
                                  print, record, index, raise
                | progress cbn [history connected idles lookup list_lookup
                                for_each connect_all app negb length Nat.eqb
                                library_calls] ]).

(** The driver loop of cp.py, with the exact final world. *)
Lemma while_iterate_drains (lib : Library) (n : nat) :
  ∀ (fuel : nat) (h : list Call),
  library_calls h = h →
  (∀ k, k < n → answer lib (repeat (Iterate "pipeline") (S k) ++ h) = true) →
  answer lib (repeat (Iterate "pipeline") (S n) ++ h) = false →
  n < fuel →
  while_iterate lib on_signal fuel "pipeline" (mkWorld h [] []) =
  Done tt (mkWorld (repeat (Iterate "pipeline") (S n) ++ h) [] []).
Proof.
  induction n as [|n IH]; intros fuel h Hh Hmore Hlast Hfuel;
    (destruct fuel as [|fuel]; [lia|]); cbn [while_iterate]; unfold bind.
  - run. rewrite Hh. cbn in Hlast. by rewrite Hlast.
  - run. rewrite Hh.
    pose proof (Hmore 0%nat ltac:(lia)) as H0. cbn in H0. rewrite H0.
    rewrite IH; [by rewrite repeat_shift| | | |lia].
    + cbn. by rewrite Hh.
    + intros k Hk. rewrite repeat_shift. apply Hmore. lia.
    + by rewrite repeat_shift.
Qed.

Lemma argc_wrong (argv0 : string) (operands : list string) :
  length operands ≠ 2%nat → (length (argv0 :: operands) =? 3)%nat = false.
Proof. intros H. apply Nat.eqb_neq. cbn. lia. Qed.

(** [main] with the statistics plugin installed: [filter] starts once the
    element is created and configured. *)
Lemma main_configures_first (lib : Library) (fuel : nat) (argv : list string) :
  stats_found lib = true →
  main lib fuel argv start =
  filter lib fuel argv ["stats"] (mkWorld configured [] []).
Proof.
  intros Hs. unfold main, gst_element_factory_make, start, stats_found in *.
  run. rewrite Hs. by run.
Qed.

Lemma main_without_statistics (lib : Library) (fuel : nat) (argv : list string) :
  stats_found lib = false →
  main lib fuel argv start =
  Done (-1)%Z
       (mkWorld [Print ("could not find plugin " ++ dq ++ "statistics" ++ dq);
                 FactoryMake "statistics" "stats"] [] []).
Proof.
  intros Hs. unfold main, gst_element_factory_make, start, stats_found in *.
  run. rewrite Hs. by run.
Qed.

Lemma filter_usage (lib : Library) (fuel : nat) (argv0 : string)
  (operands filters : list string) (w : World Handler) :
  length operands ≠ 2%nat →
  filter lib fuel (argv0 :: operands) filters w =
  Done (-1)%Z
       (mkWorld (Print ("usage: " ++ argv0 ++ " source dest") :: history w)
                (connected w) (idles w)).
Proof.
  intros Hl. unfold filter. rewrite argc_wrong by done. by run.
Qed.

(** With two operands and the statistics element in place, [filter] stops
    at the first plugin it does not find. *)
Lemma filter_without_filesrc (lib : Library) (fuel : nat)
  (argv0 src dst : string) :
  filesrc_found lib = false →
  ∃ w, filter lib fuel [argv0; src; dst] ["stats"] (mkWorld configured [] [])
       = Done (-1)%Z w.
Proof.
  intros Hs.
  unfold filter, gst_element_factory_make, filesrc_found, configured in *.
  run. rewrite Hs. run. eauto.
Qed.

Lemma filter_without_filesink (lib : Library) (fuel : nat)
  (argv0 src dst : string) :
  filesrc_found lib = true → filesink_found lib src = false →
  ∃ w, filter lib fuel [argv0; src; dst] ["stats"] (mkWorld configured [] [])
       = Done (-1)%Z w.
Proof.
  intros Hs Hk.
  unfold filter, gst_element_factory_make, filesrc_found, filesink_found,
    configured in *.
  run. rewrite Hs. run. rewrite Hk. run. eauto.
Qed.

Lemma filter_copies (lib : Library) (fuel n : nat) (argv0 src dst : string) :
  filesrc_found lib = true → filesink_found lib src = true →
  (∀ k, k < n → more_work lib src dst k = true) →
  more_work lib src dst n = false →
  n < fuel →
  filter lib fuel [argv0; src; dst] ["stats"] (mkWorld configured [] []) =
  Done 0%Z
       (mkWorld (SetState "pipeline" STATE_NULL
                 :: repeat (Iterate "pipeline") (S n) ++ playing src dst)
                [] []).
Proof.
  intros Hs Hk Hmore Hlast Hfuel.
  unfold filter, gst_element_factory_make, filesrc_found, filesink_found,
    more_work, playing, configured in *.
  run. rewrite Hs. run. rewrite Hk. run.
  rewrite (while_iterate_drains lib n) by done. by run.
Qed.

(** C7: cp.py, run as [cp <source> <dest>], builds the pipeline
    filesrc -> statistics -> filesink on the two files, runs it until
    [iterate] reports no more work and exits with [sys.exit(0)]; whenever
    setup fails (the operand count is not two, or one of the plugins
    statistics, filesrc, filesink is not found) it exits with
    [sys.exit(-1)]. *)
Theorem cp_exit_code (lib : Library) (argv0 : string) (operands : list string) :
  (setup_fails lib operands →
     ∀ fuel, ∃ w, program lib fuel (argv0 :: operands) start
                  = Raised (SystemExit (-1)) w)
  ∧ (∀ src dst n fuel,
       operands = [src; dst] →
       stats_found lib = true →
       filesrc_found lib = true →
       filesink_found lib src = true →
       (∀ k, k < n → more_work lib src dst k = true) →
       more_work lib src dst n = false →
       n < fuel →
       program lib fuel (argv0 :: operands) start =
       Raised (SystemExit 0)
              (mkWorld (SetState "pipeline" STATE_NULL
                        :: repeat (Iterate "pipeline") (S n) ++ playing src dst)
                       [] [])).
Proof.
  split.
  - intros Hfail fuel. unfold program, bind, mbind, M_bind, raise.
    destruct (stats_found lib) eqn:Hstats.
    2: { rewrite main_without_statistics by done. eauto. }
    rewrite main_configures_first by done.
    destruct (decide (length operands = 2%nat)) as [Hl|Hl].
    2: { rewrite filter_usage by done. eauto. }
    destruct operands as [|src [|dst [|? ?]]]; try done.
    destruct (filesrc_found lib) eqn:Hsrc.
    2: { destruct (filter_without_filesrc lib fuel argv0 src dst Hsrc) as [w ->].
         eauto. }
    destruct (filesink_found lib src) eqn:Hsink.
    2: { destruct (filter_without_filesink lib fuel argv0 src dst Hsrc Hsink)
           as [w ->]. eauto. }
    exfalso. destruct Hfail as [?|[?|[?|(s&d&[= <- <-]&?)]]]; congruence.
  - intros src dst n fuel -> Hstats Hsrc Hsink Hmore Hlast Hfuel.
    unfold program, bind, mbind, M_bind, raise.
    rewrite main_configures_first by done.
    by rewrite (filter_copies lib fuel n).
Qed.

Lemma cp_exit_code_witness :
  program three_passes 4 ["cp.py"; "a"; "b"] start =
  Raised (SystemExit 0)
         (mkWorld (SetState "pipeline" STATE_NULL
                   :: repeat (Iterate "pipeline") 4 ++ playing "a" "b")
                  [] [])
  ∧ ∃ w, program no_filesink 4 ["cp.py"; "a"; "b"] start
         = Raised (SystemExit (-1)) w.
Proof.
  split.
  - apply (proj2 (cp_exit_code three_passes "cp.py" ["a"; "b"]) "a" "b" 3%nat 4%nat).
    + reflexivity.
    + reflexivity.
    + reflexivity.
    + reflexivity.
    + intros k Hk. destruct k as [|[|[|k]]]; [reflexivity..|lia].
    + reflexivity.
    + lia.
  - apply (proj1 (cp_exit_code no_filesink "cp.py" ["a"; "b"])).
    right. right. right. exists "a", "b". split; reflexivity.
Defined.

(** C9: cp.py's [main] requests the statistics element first.  When the
    plugin is found, the element is configured (silent=0,
    buffer_update_freq=1, update_on_eos=1) before [filter] looks at the
    argument count, so a run with a wrong number of arguments has created
    and configured the element when it prints the usage line and returns
    -1.  When the plugin is not found, [main] prints its message and
    returns -1 at once: nothing is configured and the argument count is
    never looked at. *)
Theorem cp_statistics_before_usage (lib : Library) (fuel : nat) (argv : list string) :
  (stats_found lib = true →
   main lib fuel argv start =
     filter lib fuel argv ["stats"] (mkWorld configured [] [])
   ∧ ∀ argv0 operands,
       argv = argv0 :: operands → length operands ≠ 2%nat →
       main lib fuel argv start =
       Done (-1)%Z
            (mkWorld (Print ("usage: " ++ argv0 ++ " source dest") :: configured)
                     [] []))
  ∧ (stats_found lib = false →
     main lib fuel argv start =
     Done (-1)%Z
          (mkWorld [Print ("could not find plugin " ++ dq ++ "statistics" ++ dq);
                    FactoryMake "statistics" "stats"] [] [])).
Proof.
  split.
  - intros Hs. split; [by apply main_configures_first|].
    intros argv0 operands -> Hl.
    rewrite main_configures_first by done. by rewrite filter_usage.
  - intros Hs. by apply main_without_statistics.
Qed.

Lemma cp_statistics_before_usage_witness :
  trace (H := Handler)
        (mkWorld (Print "usage: cp.py source dest" :: configured) [] [])
  = [FactoryMake "statistics" "stats";
     SetProperty "stats" "silent" (VInt 0);
     SetProperty "stats" "buffer_update_freq" (VInt 1);
     SetProperty "stats" "update_on_eos" (VInt 1);
     Print "usage: cp.py source dest"]
  ∧ main three_passes 0 ["cp.py"; "a"] start =
    Done (-1)%Z
         (mkWorld (Print "usage: cp.py source dest" :: configured) [] []).
Proof.
  split; [reflexivity|].
  apply (proj2 (proj1 (cp_statistics_before_usage three_passes 0 ["cp.py"; "a"])
                  eq_refl) "cp.py" ["a"]).
  - reflexivity.
  - cbn. lia.
Defined.

(** The claim as written fails where the statistics plugin is missing: a
    run with one operand returns -1 having made the lookup and printed its
    message only; no property of the element is set and the usage line is
    not printed. *)
Lemma cp_statistics_before_usage_counterexample :
  main no_statistics 0 ["cp.py"; "a"] start
  = Done (-1)%Z
      (mkWorld [Print ("could not find plugin " ++ dq ++ "statistics" ++ dq);
                FactoryMake "statistics" "stats"] [] [])
  ∧ (∀ w, main no_statistics 0 ["cp.py"; "a"] start = Done (-1)%Z w →
          (∀ prop v, SetProperty "stats" prop v ∉ history w)
          ∧ Print "usage: cp.py source dest" ∉ history w).
Proof.
  split; [reflexivity|]. intros w [= <-]. split.
  - intros prop v Hin. cbn in Hin.
    apply elem_of_cons in Hin as [Hin|Hin]; [discriminate Hin|].
    apply elem_of_cons in Hin as [Hin|Hin]; [discriminate Hin|].
    by apply elem_of_nil in Hin.
  - intros Hin. cbn in Hin.
    apply elem_of_cons in Hin as [Hin|Hin]; [discriminate Hin|].
    apply elem_of_cons in Hin as [Hin|Hin]; [discriminate Hin|].
    by apply elem_of_nil in Hin.
Qed.

End CpFacts.



(** ** f2f.py *)

Module F2fFacts.
Import Binding BindingFacts F2f.

Lemma on_signal_quiet (h : Handler) (em : Emission) (data : list Obj) :
  quiet (on_signal h em data).
Proof. intros w. destruct h. eexists. split; [reflexivity|done]. Qed.

Ltac call_step H :=
  unfold mret, M_ret;
  match goal with
  | |- context [Binding.call ?lib on_signal ?c ?w] =>
      let w' := fresh "w" in
      let Hh := fresh "Hh" in
      destruct (call_quiet lib on_signal on_signal_quiet c w) as (w' & -> & Hh);
      cbn [library_calls history] in Hh |- *;
      rewrite ?H in Hh; rewrite ?H; clear H; rename Hh into H
  | |- context [connect ?lib on_signal ?o ?sig ?h ?d ?w] =>
      let w' := fresh "w" in
      let Hh := fresh "Hh" in
      destruct (connect_quiet lib on_signal on_signal_quiet o sig h d w)
        as (w' & -> & Hh);
      cbn [library_calls history] in Hh |- *;
      rewrite ?H in Hh; rewrite ?H; clear H; rename Hh into H
  end.

(** C8: f2f.py never reads the command line; it sets [num_buffers] of its
    fake source to 10, links source to sink, sets the pipeline to PLAYING,
    calls [iterate] until it returns false and sets the pipeline back to
    NULL. *)
Theorem f2f_fixed_transfer (lib : Library) (n fuel : nat) (argv : list string) :
  asserts_hold lib n →
  (∀ k, k < n → more_work lib k = true) →
  more_work lib n = false →
  n < fuel →
  program lib fuel argv = main lib fuel
  ∧ ∃ w, program lib fuel argv start = Done tt w
         ∧ library_calls (history w)
           = SetState "pipeline" STATE_NULL
             :: (repeat (Iterate "pipeline") (S n) ++ playing)%list.
Proof.
  intros (Hbin & Hlink & Hplay & Hnull) Hmore Hlast Hfuel.
  split; [done|].
  unfold program, main, call, bind, mbind, M_bind, more_work, playing in *.
  cbn [tail for_each] in *. unfold mbind, M_bind.
  assert (Hh : library_calls (history (start (H := Handler))) = []) by done.
  call_step Hh. rewrite Hbin. cbn [assert].
  do 9 call_step Hh.
  call_step Hh. rewrite Hlink. cbn [assert].
  call_step Hh. rewrite Hplay. cbn [assert]. unfold mret, M_ret.
  destruct (while_iterate_quiet lib on_signal on_signal_quiet "pipeline" n fuel w10)
    as (w11 & -> & Hw); rewrite ?Hh; try done.
  rewrite Hh in Hw.
  call_step Hw. rewrite Hnull. cbn [assert]. unfold mret, M_ret.
  by exists w12.
Qed.

Lemma f2f_fixed_transfer_witness :
  ∃ w, program ten_buffers 11 ["f2f.py"] start = Done tt w
       ∧ library_calls (history w)
         = SetState "pipeline" STATE_NULL
           :: (repeat (Iterate "pipeline") 11 ++ playing)%list.
Proof.
  apply (f2f_fixed_transfer ten_buffers 10 11 ["f2f.py"]).
  - repeat split; reflexivity.
  - intros k Hk. do 10 (destruct k as [|k]; [reflexivity|]). lia.
  - reflexivity.
  - lia.
Defined.

End F2fFacts.


(** ** dvdplay.py *)

Module DvdFacts.
Import Binding BindingFacts DvdPlay.

Ltac raises_step :=
  lazymatch goal with
  | |- raises _ (Binding.call _ _ _) => apply raises_call
  | |- raises _ (call_text _ _ _) => apply raises_call_text
  | |- raises _ (for_each _ _) => apply raises_for_each; intros ?
  | |- raises _ (mret _) => apply raises_ret
  | |- raises _ (record _) => apply raises_record
  | |- raises _ running => apply raises_running
  | |- raises _ (add_connection _) => apply raises_add_connection
  | |- raises _ get_idles => apply raises_get_idles
  | |- raises _ (set_idles _) => apply raises_set_idles
  | |- raises _ (gtk_main _ _) => apply raises_gtk_main; intros ? ?
  | |- raises _ (_ ≫= _) => apply raises_bind; [|intros ?]
  end.

Ltac raises_tac := unfold bind, print, connect, call; repeat raises_step.

Section WithLibrary.
Variable lib : Library.
Variable int : string → option Z.

Lemma eof_raises (sender : Obj) : raises eof_exit (eof sender).
Proof.
  intros w e w'. unfold eof, print, record, raise, mbind, M_bind.
  intros [= <- <-]. split; [done|]. by eexists.
Qed.

Lemma on_signal_raises (depth : nat) :
  ∀ h em data, raises eof_exit (on_signal lib depth h em data).
Proof.
  induction depth as [|depth IH]; intros h em data; cbn [on_signal].
  - apply raises_running.
  - destruct h, (args em ++ data)%list as [|x [|y [|z l]]];
      try apply raises_ret; try apply eof_raises.
    + unfold mpegparse_newpad. repeat case_bool_decide; raises_tac; done.
    + unfold dnprint. raises_tac; done.
Qed.

Lemma call_raises (depth : nat) (c : Call) : raises eof_exit (call lib depth c).
Proof. unfold call. apply raises_call, on_signal_raises. Qed.

Lemma add_and_link_raises (depth : nat) (thread : Obj) (elements : list Obj) :
  ∀ last, raises eof_exit (add_and_link (call lib depth) thread last elements).
Proof.
  induction elements as [|e rest IH]; intros last; cbn [add_and_link].
  - apply raises_ret.
  - apply raises_bind; [apply call_raises|intros _].
    apply raises_bind; [|intros _; apply IH].
    destruct last; raises_tac; apply on_signal_raises.
Qed.

Lemma build_raises (depth : nat) (location : string) (title chapter angle : Z) :
  raises eof_exit (build (call lib depth) location title chapter angle).
Proof.
  unfold build, build_video_thread, build_audio_thread.
  raises_tac; try apply on_signal_raises; try apply add_and_link_raises.
Qed.

Lemma run_idle_raises (depth : nat) (h : Handler) (data : list Obj) :
  raises eof_exit (run_idle lib depth h data).
Proof.
  unfold run_idle, idle. destruct h, data as [|p [|q l]]; raises_tac;
    apply on_signal_raises.
Qed.

Lemma run_raises (fuel : nat) : raises eof_exit (run lib fuel).
Proof.
  unfold run, idle_add. raises_tac;
    first [apply on_signal_raises|apply run_idle_raises].
Qed.

Lemma run_never_returns (fuel : nat) : returns (λ _, False) (run lib fuel).
Proof.
  unfold run. do 4 (apply returns_bind; intros ?).
  eapply returns_bind_value; [apply gtk_main_never_returns|done].
Qed.

Lemma build_returns_0 (depth : nat) (location : string) (title chapter angle : Z) :
  returns (λ r, r = 0%Z) (build (call lib depth) location title chapter angle).
Proof.
  unfold build. do 16 (apply returns_bind; intros ?). by apply returns_ret.
Qed.

Lemma player_main_raises (fuel : nat) (location : string) (title chapter angle : Z) :
  raises eof_exit (player_main lib fuel location title chapter angle).
Proof.
  unfold player_main, bind. apply raises_bind; [apply build_raises|].
  intros ret. destruct (negb _); [apply raises_ret|apply run_raises].
Qed.

Lemma player_main_never_returns (fuel : nat) (location : string)
  (title chapter angle : Z) :
  returns (λ _, False) (player_main lib fuel location title chapter angle).
Proof.
  unfold player_main, bind.
  eapply returns_bind_value; [apply build_returns_0|].
  intros ret ->. cbn. apply run_never_returns.
Qed.

Lemma same_idles_refl (w : World Handler) : same_idles w w.
Proof. done. Qed.

Lemma same_idles_trans (w1 w2 w3 : World Handler) :
  same_idles w1 w2 → same_idles w2 w3 → same_idles w1 w3.
Proof. intros [? ?] [? ?]. split; congruence. Qed.

Lemma record_keeps (c : Call) :
  is_iterate c = false → keeps same_idles (record c : M Handler unit).
Proof.
  intros Hc w a w' [= <- <-]. split; [done|]. unfold iterations. cbn.
  by rewrite Hc.
Qed.

Ltac keeps_step :=
  lazymatch goal with
  | |- keeps _ (Binding.call _ _ _) =>
      apply keeps_call;
      [apply same_idles_refl|apply same_idles_trans| |by apply record_keeps]
  | |- keeps _ (call_text _ _ _) =>
      apply keeps_call_text;
      [apply same_idles_refl|apply same_idles_trans| |by apply record_keeps]
  | |- keeps _ (mret _) => apply keeps_ret, same_idles_refl
  | |- keeps _ (record _) => by apply record_keeps
  | |- keeps _ (raise _) => apply keeps_raise
  | |- keeps _ running => apply keeps_running
  | |- keeps _ (_ ≫= _) =>
      apply keeps_bind; [apply same_idles_trans| |intros ?]
  end.

Lemma on_signal_keeps (depth : nat) :
  ∀ h em data, keeps same_idles (on_signal lib depth h em data).
Proof.
  induction depth as [|depth IH]; intros h em data; cbn [on_signal].
  - apply keeps_running.
  - destruct h, (args em ++ data)%list as [|x [|y [|z l]]];
      try (apply keeps_ret, same_idles_refl).
    + unfold eof, print. repeat keeps_step.
    + unfold mpegparse_newpad, print.
      repeat case_bool_decide; repeat keeps_step; done.
    + unfold dnprint, print, bind. repeat keeps_step; done.
Qed.

(** One run of the idle callback: it returns 1 and has called [iterate]
    once, whatever [iterate] returned. *)
Lemma idle_iterates (depth : nat) (p : Obj) (w w' : World Handler) (r : Z) :
  idle (call lib depth) p w = Done r w' →
  r = 1%Z ∧ idles w' = idles w
  ∧ iterations (history w') = S (iterations (history w)).
Proof.
  unfold idle, call, Binding.call, bind, mbind, M_bind, record, get_history.
  cbn [history].
  destruct (for_each _ _ _) as [[] w1|e w1|] eqn:Hd; [|discriminate..].
  intros [= <- <-].
  apply (keeps_for_each same_idles same_idles_refl same_idles_trans) in Hd.
  - destruct Hd as [Hi Hn]. cbn in Hi, Hn. done.
  - intros em. apply keeps_dispatch;
      [apply same_idles_refl|apply same_idles_trans|apply on_signal_keeps].
Qed.

Lemma idle_round_iterates (depth : nat) (p : Obj) (w w' : World Handler) :
  idles w = [(idle_cb, [p])] →
  idle_round (run_idle lib depth) w = Done tt w' →
  idles w' = [(idle_cb, [p])]
  ∧ iterations (history w') = S (iterations (history w)).
Proof.
  intros Hw. unfold idle_round, bind, mbind, M_bind, get_idles. rewrite Hw.
  cbn [idle_pass run_idle]. unfold bind, mbind, M_bind.
  destruct (idle _ p w) as [r w1|e w1|] eqn:Hidle; [|discriminate..].
  apply idle_iterates in Hidle as (-> & Hi & Hn). cbn.
  rewrite Hi, Hw. cbn. intros [= <-]. done.
Qed.

Lemma gtk_rounds_iterate (depth : nat) (p : Obj) (n : nat) :
  ∀ w w' : World Handler,
  idles w = [(idle_cb, [p])] →
  gtk_rounds (run_idle lib depth) n w = Done tt w' →
  idles w' = [(idle_cb, [p])]
  ∧ iterations (history w') = (n + iterations (history w))%nat.
Proof.
  induction n as [|n IH]; intros w w' Hw; cbn [gtk_rounds].
  - by intros [= <-].
  - unfold mbind, M_bind.
    destruct (idle_round _ w) as [[] w1|e w1|] eqn:Hround; [|discriminate..].
    apply (idle_round_iterates _ p) in Hround as [Hi Hn]; [|done].
    intros Hrest. apply IH in Hrest as [Hi' Hn']; [|done].
    split; [done|]. rewrite Hn', Hn. lia.
Qed.

Lemma program_outcome (fuel : nat) (argv0 : string) (operands : list string)
  (e : Exn) (w : World Handler) :
  program lib int fuel (argv0 :: operands) start = Raised e w →
  (e = SystemExit (-1) ∧ length operands < 4)
  ∨ e = ValueError ∨ eof_exit e w.
Proof.
  unfold program, main, bind, mbind, M_bind, record, start. cbn [history].
  destruct (length (argv0 :: operands) <? 5)%nat eqn:Hlen.
  - cbn. intros [= <- <-]. left. split; [done|].
    apply Nat.ltb_lt in Hlen. cbn in Hlen. lia.
  - apply Nat.ltb_ge in Hlen.
    destruct operands as [|a1 [|a2 [|a3 [|a4 rest]]]]; cbn in Hlen; try lia.
    cbn [index lookup list_lookup mret M_ret]. unfold to_int.
    destruct (int a2) as [title|]; [|intros [= <- <-]; by right; left].
    destruct (int a3) as [chapter|]; [|intros [= <- <-]; by right; left].
    destruct (int a4) as [angle|]; [|intros [= <- <-]; by right; left].
    cbn [mret M_ret].
    destruct (player_main _ _ _ _ _ _ _) as [r w1|e1 w1|] eqn:Hp.
    + by apply player_main_never_returns in Hp.
    + intros [= <- <-]. right; right. by apply player_main_raises in Hp.
    + discriminate.
Qed.

End WithLibrary.

(** C10: the idle callback of dvdplay.py calls [pipeline.iterate()], drops
    what it returns and returns 1, so the gtk main loop keeps it registered
    and every round makes one more [iterate] call whatever the library
    answers; [gtk.main()] never returns, and the script ends with
    [sys.exit(0)] only from the [eos] handler [eof], right after its
    message. *)
Theorem dvdplay_idle_always_reschedules (lib : Library) (int : string → option Z)
  (depth : nat) :
  (∀ p w r w', idle (call lib depth) p w = Done r w' →
     r = 1%Z ∧ iterations (history w') = S (iterations (history w)))
  ∧ (∀ p n w w',
       idles w = [(idle_cb, [p])] →
       gtk_rounds (run_idle lib depth) n w = Done tt w' →
       idles w' = [(idle_cb, [p])]
       ∧ iterations (history w') = (n + iterations (history w))%nat)
  ∧ (∀ fuel w r w', run lib fuel w ≠ Done r w')
  ∧ (∀ fuel argv0 operands e w,
       program lib int fuel (argv0 :: operands) start = Raised e w →
       (e = SystemExit (-1) ∧ length operands < 4)
       ∨ e = ValueError ∨ eof_exit e w).
Proof.
  split; [|split; [|split]].
  - intros p w r w' Hi. by apply idle_iterates in Hi as (? & ? & ?).
  - intros p n w w' Hw Hr. by apply (gtk_rounds_iterate lib depth p n w w').
  - intros fuel w r w' Hrun. by apply run_never_returns in Hrun.
  - apply program_outcome.
Qed.

Lemma dvdplay_idle_always_reschedules_witness :
  (∃ w', gtk_rounds (run_idle always_done 1) 3
           (mkWorld [] [] [(idle_cb, [pipeline])]) = Done tt w'
         ∧ iterations (history w') = 3%nat)
  ∧ (∃ w, program eos_at_third int_digit 5
            ["dvdplay.py"; "/dev/dvd"; "1"; "2"; "3"] start
          = Raised (SystemExit 0) w
          ∧ eof_exit (SystemExit 0) w).
Proof.
  split.
  - assert (∃ w', gtk_rounds (run_idle always_done 1) 3
                    (mkWorld [] [] [(idle_cb, [pipeline])]) = Done tt w')
      as [w' Hw'] by (eexists; vm_compute; reflexivity).
    exists w'. split; [exact Hw'|].
    exact (proj2 (proj1 (proj2
             (dvdplay_idle_always_reschedules always_done int_digit 1))
             pipeline 3%nat (mkWorld [] [] [(idle_cb, [pipeline])]) w'
             eq_refl Hw')).
  - assert (∃ w, program eos_at_third int_digit 5
                   ["dvdplay.py"; "/dev/dvd"; "1"; "2"; "3"] start
                 = Raised (SystemExit 0) w)
      as [w Hw] by (eexists; vm_compute; reflexivity).
    exists w. split; [exact Hw|].
    destruct (proj2 (proj2 (proj2
                (dvdplay_idle_always_reschedules eos_at_third int_digit 1)))
                5%nat "dvdplay.py" ["/dev/dvd"; "1"; "2"; "3"] _ w Hw)
      as [[Hc _]|[Hc|Hc]]; [discriminate Hc|discriminate Hc|exact Hc].
Defined.

End DvdFacts.


(** ** State changes of bins *)

Module StateMachineFacts.
Import StateMachine.







Section BinWalk.
Variable request : State → list Element → Outcome * list Element.
Variable hook : Hook.


(** When the walk of a bin stops on a failing child, the bin reports the
    lowest state of its children, which are those left by the failing
    request. *)
Lemma bin_walk_child_failed (steps : list State) :
  ∀ cur cs st' cs',
  bin_walk request hook steps cur cs = (ChildFailed, (st', cs')) →
  st' = lowest cs' ∧ ∃ s cs0, request s cs0 = (ChildFailed, cs').
Proof.
  induction steps as [|s rest IH]; intros cur cs st' cs'; cbn [bin_walk].
  - discriminate.
  - destruct (rank cur <? rank s)%nat.
    + destruct (request s cs) as [[] cs1] eqn:Hreq; try discriminate.
      * destruct (hook cur s); [apply IH|discriminate].
      * intros [= <- <-]. split; [done|]. by exists s, cs.
    + destruct (hook cur s); [|discriminate].
      destruct (request s cs) as [[] cs1] eqn:Hreq; try discriminate.
      * apply IH.
      * intros [= <- <-]. split; [done|]. by exists s, cs.
Qed.



End BinWalk.






















End StateMachineFacts.

(** ** The element factory *)

Module FactoryFacts.
Import Pads Factory.

Lemma add_pads_keeps (owner : ElemId) (ts : list PadTemplate) :
  ∀ (store : gmap PadId Pad) (p : PadId) (pad : Pad),
  store !! p = Some pad → snd (add_pads owner ts store) !! p = Some pad.
Proof.
  induction ts as [|t ts IH]; intros store p pad Hp; cbn [add_pads]; [done|].
  specialize (IH (<[fresh (dom store) :=
                     mkPad (t_name t) (t_direction t) (t_caps t) None owner]> store)
                 p pad).
  destruct (add_pads _ _ _) as [ids store']. cbn in *. apply IH.
  rewrite lookup_insert_ne; [done|]. intros Heq.
  apply (is_fresh (dom store)). rewrite Heq. apply elem_of_dom. by eexists.
Qed.

Lemma add_pads_length (owner : ElemId) (ts : list PadTemplate) :
  ∀ store : gmap PadId Pad, length (fst (add_pads owner ts store)) = length ts.
Proof.
  induction ts as [|t ts IH]; intros store; cbn [add_pads]; [done|].
  specialize (IH (<[fresh (dom store) :=
                     mkPad (t_name t) (t_direction t) (t_caps t) None owner]> store)).
  destruct (add_pads _ _ _). cbn in *. by rewrite IH.
Qed.

(** C5: for a type name that is not registered the factory fails with
    [UnknownElementType] and the graph is the same after the call; for a
    registered type name it returns a new element with the instance name, in
    state NULL and without parent, and every element and pad that existed
    is still there unchanged. *)
Theorem createElement_unknown_type (registry : gmap string ElementType)
  (g : Graph) (typeName instanceName : string) :
  (registry !! typeName = None →
     createElement registry g typeName instanceName
     = (Fail UnknownElementType, g))
  ∧ (∀ ty, registry !! typeName = Some ty →
       ∃ id g' e,
         createElement registry g typeName instanceName = (Ok id, g')
         ∧ elements g !! id = None
         ∧ elements g' !! id = Some e
         ∧ ename e = instanceName ∧ state e = STATE_NULL ∧ parent e = None
         ∧ length (pads e) = length (templates ty)
         ∧ (∀ j e0, elements g !! j = Some e0 → elements g' !! j = Some e0)
         ∧ (∀ p pad, pad_store g !! p = Some pad → pad_store g' !! p = Some pad)).
Proof.
  unfold createElement. split.
  - by intros ->.
  - intros ty ->.
    pose proof (add_pads_keeps (fresh (dom (elements g))) (templates ty)
                  (pad_store g)) as Hkeep.
    pose proof (add_pads_length (fresh (dom (elements g))) (templates ty)
                  (pad_store g)) as Hlen.
    destruct (add_pads _ _ _) as [ids store]. cbn in *.
    eexists _, _, _. split; [reflexivity|]. cbn.
    assert (Hfresh : elements g !! fresh (dom (elements g)) = None).
    { apply not_elem_of_dom, is_fresh. }
    split; [done|]. split; [apply lookup_insert_eq|]. cbn.
    repeat split; try done.
    intros j e0 Hj. rewrite lookup_insert_ne; [done|]. congruence.
Qed.

Lemma createElement_unknown_type_witness :
  createElement demo_registry empty_graph "nonexistent-type" "x"
  = (Fail UnknownElementType, empty_graph)
  ∧ ∃ id g' e,
      createElement demo_registry empty_graph "fakesrc" "src" = (Ok id, g')
      ∧ elements g' !! id = Some e ∧ ename e = "src".
Proof.
  split.
  - apply (proj1 (createElement_unknown_type demo_registry empty_graph
                    "nonexistent-type" "x")).
    reflexivity.
  - destruct (proj2 (createElement_unknown_type demo_registry empty_graph
                       "fakesrc" "src") _ eq_refl)
      as (id & g' & e & Hc & _ & He & Hn & _).
    by exists id, g', e.
Defined.

End FactoryFacts.


(** ** The scheduler *)

Module SchedulerFacts.
Import Scheduler.

(** *** Work left in a pipeline *)










(** *** What a processing step changes *)

Lemma step_emit (e e' : Element) (b : Buffer) (pad : string) :
  step e = Emit b pad e' →
  ready e = true → units e = S (units e')
  ∧ src_pads e' = src_pads e ∧ name e' = name e ∧ broken e' = broken e
  ∧ is_live e' = is_live e
  ∧ data_of e ≡ₚ b :: data_of e'.
Proof.
  unfold step, ready, units, data_of, is_live.
  destruct e as [n r inb ps br]; cbn.
  destruct r as [[|b0 pending] live eos| | |received]; cbn;
    try destruct inb as [|b0 inb]; try discriminate;
    intros [= <- <- <-]; cbn; try (destruct eos; try discriminate);
    intros _; repeat split; done.
Qed.

Lemma step_quiet (e e' : Element) :
  step e = Quiet e' →
  ready e = true →
  (units e' ≤ units e)%nat
  ∧ (is_live e = false → units e = S (units e'))
  ∧ src_pads e' = src_pads e ∧ name e' = name e ∧ broken e' = broken e
  ∧ is_live e' = is_live e
  ∧ data_of e' ≡ₚ data_of e.
Proof.
  unfold step, ready, units, data_of, is_live.
  destruct e as [n r inb ps br]; cbn.
  destruct r as [[|b0 pending] live eos| | |received]; cbn;
    try destruct inb as [|b0 inb]; try discriminate;
    intros [= <-]; cbn; try (destruct eos; try discriminate);
    try (destruct live); cbn; intros _; repeat split; try done; try lia.
  - rewrite <- app_assoc. cbn. by rewrite Permutation_middle.
Qed.

(** *** Links *)







(** *** One visit, case by case *)

Lemma find_pad_Some (pad : string) (ps : list SrcPad) :
  ∀ k, find_pad pad ps = Some k → ∃ sp, ps !! k = Some sp ∧ pad_name sp = pad.
Proof.
  induction ps as [|sp ps IH]; intros k; cbn [find_pad]; [done|].
  case_bool_decide as Hn.
  - intros [= <-]. by exists sp.
  - destruct (find_pad pad ps) as [k'|]; [|done]. intros [= <-].
    by apply IH.
Qed.

Lemma visit_cases (i : nat) (p p' : Pipeline) :
  visit i p = Some p' →
  (p' = p ∧ ∀ e, elements p !! i = Some e → ready e = false)
  ∨ ∃ e e',
      elements p !! i = Some e ∧ ready e = true ∧ broken e = false ∧
      let p1 := set_elements p (<[i := e']> (elements p)) in
      (step e = Quiet e' ∧ p' = p1)
      ∨ (∃ b pad k sp,
           step e = Emit b pad e' ∧ find_pad pad (src_pads e') = Some k
           ∧ src_pads e' !! k = Some sp
           ∧ ((∃ j, peer sp = Some j ∧ p' = deliver j b p1)
              ∨ (peer sp = None ∧ p' = unlinked i k b p1)))
      ∨ (∃ b pad,
           step e = Emit b pad e' ∧ find_pad pad (src_pads e') = None
           ∧ p' = unlinked i (length (src_pads e')) b (add_pad i e' pad p1)).
Proof.
  unfold visit. destruct (elements p !! i) as [e|] eqn:He.
  2: { intros [= <-]. left. by split. }
  destruct (ready e) eqn:Hr.
  2: { intros [= <-]. left. split; [done|]. by intros e0 [= <-]. }
  destruct (broken e) eqn:Hb; [done|].
  destruct (step e) as [b pad e'|e'] eqn:Hs.
  - intros [= <-]. right. exists e, e'. repeat split; try done. cbn zeta.
    unfold push. destruct (find_pad pad (src_pads e')) as [k|] eqn:Hf.
    + destruct (find_pad_Some _ _ _ Hf) as (sp & Hsp & _). rewrite Hsp.
      right; left. exists b, pad, k, sp. repeat split; try done.
      destruct (peer sp) as [j|]; [left; by exists j|by right].
    + right; right. by exists b, pad.
  - intros [= <-]. right. exists e, e'. repeat split; try done. by left.
Qed.


Ltac visit_inv H :=
  let Hidle := fresh "Hidle" in
  let e := fresh "e" in let e' := fresh "e'" in
  let He := fresh "He" in let Hr := fresh "Hr" in let Hb := fresh "Hb" in
  let Hc := fresh "Hc" in let Hs := fresh "Hs" in let Hf := fresh "Hf" in
  let Hsp := fresh "Hsp" in let Hj := fresh "Hj" in
  let b := fresh "b" in let pad := fresh "pad" in let k := fresh "k" in
  let sp := fresh "sp" in let j := fresh "j" in
  apply visit_cases in H as [[-> Hidle]|(e & e' & He & Hr & Hb & Hc)];
  [|cbn zeta in Hc;
    destruct Hc as [[Hs ->]
                   |[(b & pad & k & sp & Hs & Hf & Hsp & [(j & Hj & ->)|[Hj ->]])
                    |(b & pad & Hs & Hf & ->)]]].


(** A property of single elements that no step changes holds of all the
    elements after a visit when it held before. *)
Lemma visit_Forall (P : Element → Prop) (i : nat) (p p' : Pipeline) :
  (∀ e l, P e → P (set_inbox e l)) →
  (∀ e ps, P e → P (set_pads e ps)) →
  (∀ e e', ready e = true → P e → (∃ b pad, step e = Emit b pad e') ∨ step e = Quiet e' → P e') →
  visit i p = Some p' → Forall P (elements p) → Forall P (elements p').
Proof.
  intros Hinbox Hpads Hstep Hv Hp.
  assert (Hins : ∀ e e', elements p !! i = Some e → ready e = true →
            (∃ b pad, step e = Emit b pad e') ∨ step e = Quiet e' →
            Forall P (<[i := e']> (elements p))).
  { intros e e' He Hr Hs. apply Forall_insert; [done|].
    eapply Hstep; [done| |done]. by eapply Forall_lookup_1. }
  visit_inv Hv; [done|..].
  - apply (Hins e); eauto.
  - unfold deliver. cbn. apply Forall_alter; [apply (Hins e); eauto|].
    intros e0 _. apply Hinbox.
  - unfold unlinked. destruct (policy _); cbn; [|apply (Hins e); eauto].
    apply Forall_alter; [apply (Hins e); eauto|]. intros e0 _. apply Hpads.
  - unfold unlinked. destruct (policy _); cbn.
    + apply Forall_alter; [|intros e0 _; apply Hpads].
      apply Forall_alter; [apply (Hins e); eauto|]. intros e0 _. apply Hpads.
    + apply Forall_alter; [apply (Hins e); eauto|]. intros e0 _. apply Hpads.
Qed.


Lemma visit_unbroken (i : nat) (p p' : Pipeline) :
  visit i p = Some p' → unbroken p = true → unbroken p' = true.
Proof.
  unfold unbroken. rewrite <- !Is_true_true, !forallb_True. intros Hv.
  apply visit_Forall with i; try done.
  intros e e' Hr He [(b & pad & Hs)|Hs].
  - apply step_emit in Hs as (_ & _ & _ & Hl & _); [|done]. by rewrite Hl.
  - apply step_quiet in Hs as (_ & _ & _ & _ & Hl & _); [|done].
    by rewrite Hl.
Qed.

(** *** A visit never adds work, and a ready element takes some away *)




(** *** A whole pass *)




(** *** The driver loop ends *)




(** *** Every buffer is somewhere *)

(** All the buffers of a pipeline, wherever they are: consumed by a sink,
    on their way, held on a pad without peer, or dropped. *)
Local Abbreviation total p :=
  (concat (map data_of (elements p)) ++ dropped p)%list.

















(** *** Sound pipelines *)









(** *** What every visit keeps, the loop keeps *)




(** *** When [iterate] reports the end *)




(** *** Where the data goes *)









(** *** Pipelines in which every pad pushed on has a peer *)













(** *** Pads created while the pipeline runs *)

Lemma visit_ok (i : nat) (p : Pipeline) :
  unbroken p = true → ∃ p', visit i p = Some p'.
Proof.
  unfold unbroken. rewrite <- Is_true_true, forallb_True, Forall_lookup.
  intros Hub. unfold visit. destruct (elements p !! i) as [e|] eqn:He; [|eauto].
  specialize (Hub i e He). destruct (ready e); [|eauto].
  destruct (broken e); [done|]. destruct (step e); eauto.
Qed.

Lemma visit_from_ok (n : nat) :
  ∀ i p, unbroken p = true → fst (visit_from i n p) = true.
Proof.
  induction n as [|n IH]; intros i p Hub; cbn [visit_from]; [done|].
  destruct (visit_ok i p Hub) as [p' Hv]. rewrite Hv.
  apply IH. by apply (visit_unbroken i p).
Qed.

(** The scheduling pass never ends with an error unless a processing hook
    is broken, whatever is linked or not. *)
Lemma iterate_ok (p : Pipeline) :
  unbroken p = true → fst (iterate p) ≠ StepError.
Proof.
  intros Hub. unfold iterate, pass.
  pose proof (visit_from_ok (length (elements p)) 0 p Hub) as Hok.
  destruct (visit_from _ _ _) as [ok p']. cbn in Hok. subst ok. cbn.
  by destruct (has_work p').
Qed.

Lemma find_pad_new (pad : string) (ps : list SrcPad) (held : list Buffer) :
  find_pad pad ps = None →
  find_pad pad (ps ++ [mkSrcPad pad None held])%list = Some (length ps).
Proof.
  induction ps as [|sp ps IH]; cbn [find_pad app length].
  - intros _. by rewrite bool_decide_eq_true_2.
  - case_bool_decide; [done|]. destruct (find_pad pad ps); [done|].
    intros _. by rewrite IH.
Qed.

Lemma alter_last {A} (f : A → A) (l : list A) (x : A) :
  alter f (length l) (l ++ [x])%list = (l ++ [f x])%list.
Proof. induction l as [|a l IH]; cbn; [done|]. by rewrite <- IH. Qed.

(** The visit of an element whose step pushes on a pad it does not have
    yet. *)
Lemma visit_new_pad (p : Pipeline) (i : nat) (e e' : Element) (b : Buffer)
  (pad : string) :
  elements p !! i = Some e → ready e = true → broken e = false →
  step e = Emit b pad e' → find_pad pad (src_pads e) = None →
  visit i p =
  Some (mkPipeline
          (<[i := set_pads e'
                    (src_pads e ++ [mkSrcPad pad None (kept (policy p) b)])]>
             (elements p))
          (policy p)
          (notifications p ++ [PadAdded (name e) pad])
          (dropped p ++ lost (policy p) b)).
Proof.
  intros He Hr Hb Hs Hf. unfold visit. rewrite He, Hr, Hb, Hs.
  apply step_emit in Hs as (_ & Hpads & Hname & _); [|done].
  unfold push. rewrite Hpads, Hf.
  unfold unlinked, add_pad, set_elements, kept, lost. cbn. rewrite Hname.
  f_equal. destruct (policy p); cbn; rewrite ?app_nil_r; f_equal.
  - rewrite !list_insert_alter, !list_alter_alter_eq.
    apply list_alter_ext; [|done].
    intros e0 _. unfold compose, set_pads. cbn.
    by rewrite Hpads, alter_last.
  - rewrite !list_insert_alter, !list_alter_alter_eq.
    apply list_alter_ext; [|done].
    intros e0 _. unfold compose, set_pads. cbn. by rewrite Hpads.
Qed.

(** The visit of an element whose step pushes on a pad that has no peer. *)
Lemma visit_unlinked_pad (p : Pipeline) (i k : nat) (e e' : Element)
  (b : Buffer) (pad : string) (sp : SrcPad) :
  elements p !! i = Some e → ready e = true → broken e = false →
  step e = Emit b pad e' → find_pad pad (src_pads e) = Some k →
  src_pads e !! k = Some sp → peer sp = None →
  visit i p =
  Some (mkPipeline
          (<[i := set_pads e'
                    (<[k := mkSrcPad (pad_name sp) None
                                     (held sp ++ kept (policy p) b)]>
                       (src_pads e))]>
             (elements p))
          (policy p)
          (notifications p)
          (dropped p ++ lost (policy p) b)).
Proof.
  intros He Hr Hb Hs Hf Hk Hpeer. unfold visit. rewrite He, Hr, Hb, Hs.
  apply step_emit in Hs as (_ & Hpads & Hname & _); [|done].
  unfold push. rewrite Hpads, Hf, Hk, Hpeer.
  unfold unlinked, set_elements, kept, lost. cbn.
  f_equal. destruct (policy p); cbn; rewrite ?app_nil_r; f_equal.
  - rewrite !list_insert_alter, !list_alter_alter_eq.
    apply list_alter_ext; [|done].
    intros e0 _. unfold compose, set_pads. cbn. rewrite Hpads. f_equal.
    apply list_alter_ext; [|done]. intros sp0 Hsp0.
    assert (sp0 = sp) as -> by congruence. unfold hold. by rewrite Hpeer.
  - rewrite (list_insert_id (src_pads e) k).
    + f_equal. destruct e'; cbn in *. by subst.
    + rewrite Hk. f_equal. destruct sp; cbn in *. by subst.
Qed.

Lemma insert_last {A} (l : list A) (x y : A) :
  <[length l := y]> (l ++ [x])%list = (l ++ [y])%list.
Proof. by rewrite list_insert_alter, alter_last. Qed.

(** Linking a pad that was created unlinked: the data it held goes to the
    new peer. *)
Lemma link_new_pad (p : Pipeline) (i j : nat) (e target : Element)
  (pad : string) (ps : list SrcPad) (h : list Buffer) :
  elements p !! i = Some e → elements p !! j = Some target →
  src_pads e = (ps ++ [mkSrcPad pad None h])%list → find_pad pad ps = None →
  (i < j)%nat →
  link_pad i pad j p =
  Some (Ok (set_elements p
    (alter (λ t, set_inbox t (inbox t ++ h)) j
       (<[i := set_pads e (ps ++ [mkSrcPad pad (Some j) []])]> (elements p))))).
Proof.
  intros He Ht Hps Hf Hij. unfold link_pad. rewrite He, Ht, Hps.
  rewrite (find_pad_new pad ps h Hf).
  rewrite lookup_app_r, Nat.sub_diag by done.
  apply Nat.ltb_lt in Hij. cbn [lookup list_lookup peer held]. rewrite Hij.
  do 4 f_equal.
  rewrite list_insert_alter. apply list_alter_ext; [|done].
  intros e0 He0. assert (e0 = e) as -> by congruence.
  by rewrite Hps, insert_last.
Qed.

(** C6: the scheduling pass never ends with an error unless a processing
    hook is broken, whatever is linked or not; when the step of an element
    pushes a buffer on a pad the element does not have, the pad is created
    unlinked and [pad-added] is notified; a buffer pushed on a pad without
    peer is kept on the pad or dropped, as the policy says; and a pad created
    this way can then be linked to a later element: the peer receives the
    data the pad held and nothing else in the pipeline changes. *)
Theorem pad_added_mid_run (p : Pipeline) (i : nat) (e e' : Element)
  (b : Buffer) (pad : string) :
  elements p !! i = Some e → ready e = true → broken e = false →
  step e = Emit b pad e' →
  (unbroken p = true → fst (iterate p) ≠ StepError)
  ∧ (∀ k sp,
       find_pad pad (src_pads e) = Some k → src_pads e !! k = Some sp →
       peer sp = None →
       ∃ p',
         visit i p = Some p'
         ∧ notifications p' = notifications p
         ∧ elements p' !! i
           = Some (set_pads e'
                     (<[k := mkSrcPad (pad_name sp) None
                                      (held sp ++ kept (policy p) b)]>
                        (src_pads e)))
         ∧ dropped p' = (dropped p ++ lost (policy p) b)%list)
  ∧ (find_pad pad (src_pads e) = None →
     ∃ p',
       visit i p = Some p'
       ∧ notifications p' = (notifications p ++ [PadAdded (name e) pad])%list
       ∧ elements p' !! i
         = Some (set_pads e'
                   (src_pads e ++ [mkSrcPad pad None (kept (policy p) b)]))
       ∧ dropped p' = (dropped p ++ lost (policy p) b)%list
       ∧ ∀ j target,
           (i < j)%nat → elements p' !! j = Some target →
           ∃ p'',
             link_pad i pad j p' = Some (Ok p'')
             ∧ elements p'' !! i
               = Some (set_pads e' (src_pads e ++ [mkSrcPad pad (Some j) []]))
             ∧ elements p'' !! j
               = Some (set_inbox target (inbox target ++ kept (policy p) b))
             ∧ (∀ m, m ≠ i → m ≠ j → elements p'' !! m = elements p' !! m)
             ∧ notifications p'' = notifications p'
             ∧ dropped p'' = dropped p'
             ∧ policy p'' = policy p').
Proof.
  intros He Hr Hb Hs.
  pose proof (lookup_lt_Some _ _ _ He) as Hi.
  split; [apply iterate_ok|]. split.
  - intros k sp Hf Hk Hpeer. eexists.
    split; [by apply (visit_unlinked_pad p i k e e' b pad sp)|]. cbn.
    split; [done|]. split; [by rewrite list_lookup_insert_eq|done].
  - intros Hf. eexists. split; [by apply visit_new_pad|]. cbn.
    split; [done|]. split; [by rewrite list_lookup_insert_eq|]. split; [done|].
    intros j target Hij Ht.
    eexists. split.
    { eapply link_new_pad; [by apply list_lookup_insert_eq|exact Ht|done..]. }
    cbn. rewrite list_insert_insert_eq.
    split; [by rewrite list_lookup_alter_ne, list_lookup_insert_eq by lia|].
    split.
    { rewrite list_lookup_alter_eq, list_lookup_insert_ne by lia.
      rewrite list_lookup_insert_ne in Ht by lia. by rewrite Ht. }
    split; [|done].
    intros m Hmi Hmj. by rewrite list_lookup_alter_ne, !list_lookup_insert_ne.
Qed.

Lemma pad_added_mid_run_witness :
  ∃ p' p'',
    visit 1 demo_audio = Some p'
    ∧ notifications p' = [PadAdded "parse" "private_stream_1.0"]
    ∧ link_pad 1 "private_stream_1.0" 3 p' = Some (Ok p'')
    ∧ elements p'' !! 3%nat
      = Some (mkElement "osssink" (Sink [])
                [mkBuffer "private_stream_1.0" 0] [] false)
    ∧ elements p'' !! 0%nat = elements demo_audio !! 0%nat.
Proof.
  destruct (proj2 (proj2 (pad_added_mid_run demo_audio 1%nat
              (mkElement "parse" Demux [mkBuffer "private_stream_1.0" 0]
                 [mkSrcPad "video_00" (Some 2) []] false)
              (mkElement "parse" Demux []
                 [mkSrcPad "video_00" (Some 2) []] false)
              (mkBuffer "private_stream_1.0" 0) "private_stream_1.0"
              eq_refl eq_refl eq_refl eq_refl)) eq_refl)
    as (p' & Hv & Hn & He & Hd & Hlink).
  destruct (Hlink 3%nat (mkElement "osssink" (Sink []) [] [] false))
    as (p'' & Hl & Hi & Hj & Hk & _).
  - lia.
  - injection Hv as <-. reflexivity.
  - exists p', p''. split; [done|]. split; [done|]. split; [done|].
    split; [done|]. rewrite Hk by lia. injection Hv as <-. reflexivity.
Defined.

End SchedulerFacts.

(** ** Runs read as lists of events *)

Module RunsFacts.
Import Binding BindingFacts Runs.

Lemma after_nil {H} (w : World H) : after [] w = w.
Proof. by destruct w. Qed.

Lemma after_after {H} (later earlier : list Call) (w : World H) :
  after later (after earlier w) = after (later ++ earlier) w.
Proof. unfold after. cbn. by rewrite app_assoc. Qed.

Lemma library_calls_app (h h' : list Call) :
  library_calls (h ++ h') = (library_calls h ++ library_calls h')%list.
Proof.
  induction h as [|c h IH]; [done|]. destruct c; cbn; by rewrite ?IH.
Qed.

(** A call during which the library fires no signal. *)
Lemma call_unsignalled {H} (lib : Library)
  (on_signal : H → Emission → list Obj → M H unit) (c : Call) (w : World H) :
  emits lib (library_calls (c :: history w)) = [] →
  Binding.call lib on_signal c w
  = Done (answer lib (library_calls (c :: history w))) (after [c] w).
Proof.
  intros He. unfold Binding.call, bind, mbind, M_bind, record, get_history.
  cbn [history]. by rewrite He.
Qed.

Lemma iterations_library_calls (h : list Call) :
  iterations (library_calls h) = iterations h.
Proof.
  unfold iterations. induction h as [|c h IH]; [done|].
  destruct c; cbn; by rewrite ?IH.
Qed.

(** A call into a library that fires no signal: the call is recorded and
    answered, and nothing else happens. *)
Lemma call_silent {H} (lib : Library) (on_signal : H → Emission → list Obj → M H unit)
  (c : Call) (w : World H) :
  silent lib →
  call lib on_signal c w
  = Done (answer lib (library_calls (c :: history w))) (after [c] w).
Proof.
  intros Hs. unfold call, bind, mbind, M_bind, record, get_history.
  cbn [history]. by rewrite Hs.
Qed.

Lemma call_text_silent {H} (lib : Library)
  (on_signal : H → Emission → list Obj → M H unit) (c : Call) (w : World H) :
  silent lib →
  call_text lib on_signal c w
  = Done (reply lib (library_calls (c :: history w))) (after [c] w).
Proof.
  intros Hs. unfold call_text, bind, mbind, M_bind, record, get_history.
  cbn [history]. by rewrite Hs.
Qed.

Section Always.
Context {H : Type}.
Variable P : Call → Prop.

Lemma always_ret {A} (a : A) : always P (mret a : M H A).
Proof. by intros w Hw. Qed.

Lemma always_raise {A} (e : Exn) : always P (raise e : M H A).
Proof. by intros w Hw. Qed.

Lemma always_running {A} : always P (running : M H A).
Proof. by intros w Hw. Qed.

Lemma always_bind {A B} (m : M H A) (k : A → M H B) :
  always P m → (∀ a, always P (k a)) → always P (m ≫= k).
Proof.
  intros Hm Hk w Hw. unfold mbind, M_bind. specialize (Hm w Hw).
  destruct (m w) as [a w1|e w1|]; [by apply Hk|done..].
Qed.

(** What follows a piece of script that never returns is never run. *)
Lemma always_bind_dead {A B} (m : M H A) (k : A → M H B) :
  always P m → returns (λ _, False) m → always P (m ≫= k).
Proof.
  intros Hm Hr w Hw. unfold mbind, M_bind. specialize (Hm w Hw).
  destruct (m w) as [a w1|e w1|] eqn:Hmw; [|done..].
  destruct (Hr _ _ _ Hmw).
Qed.

Lemma always_record (c : Call) : P c → always P (record c : M H unit).
Proof. intros Hc w Hw. cbn. by constructor. Qed.

Lemma always_get_history : always P (get_history : M H _).
Proof. by intros w Hw. Qed.

Lemma always_get_connected : always P (get_connected : M H _).
Proof. by intros w Hw. Qed.

Lemma always_get_idles : always P (get_idles : M H _).
Proof. by intros w Hw. Qed.

Lemma always_set_idles (l : list (H * list Obj)) : always P (set_idles l).
Proof. by intros w Hw. Qed.

Lemma always_add_connection (c : Connection H) : always P (add_connection c).
Proof. by intros w Hw. Qed.

Lemma always_assert (b : bool) : always P (assert b : M H unit).
Proof. destruct b; [apply always_ret|apply always_raise]. Qed.

Lemma always_for_each {A} (l : list A) (f : A → M H unit) :
  (∀ x, always P (f x)) → always P (for_each l f).
Proof.
  intros Hf. induction l as [|x l IH]; cbn [for_each]; [apply always_ret|].
  apply always_bind; [apply Hf|intros _; apply IH].
Qed.

Lemma always_idle_pass (run_idle : H → list Obj → M H Z) (todo : list (H * list Obj)) :
  (∀ h data, always P (run_idle h data)) →
  ∀ kept, always P (idle_pass run_idle todo kept).
Proof.
  intros Hr. induction todo as [|[h data] todo IH]; intros kept; cbn [idle_pass].
  - apply always_ret.
  - unfold bind. apply always_bind; [apply Hr|]. intros r.
    destruct (r =? 0)%Z; apply IH.
Qed.

Lemma always_gtk_rounds (run_idle : H → list Obj → M H Z) (n : nat) :
  (∀ h data, always P (run_idle h data)) → always P (gtk_rounds run_idle n).
Proof.
  intros Hr. induction n as [|n IH]; cbn [gtk_rounds]; [apply always_ret|].
  apply always_bind; [|intros _; apply IH].
  unfold idle_round, bind. apply always_bind; [apply always_get_idles|].
  intros todo. apply always_bind; [by apply always_idle_pass|].
  intros kept. apply always_bind; [apply always_get_idles|].
  intros now. apply always_set_idles.
Qed.

Section Calls.
Variable lib : Library.
Variable on_signal : H → Emission → list Obj → M H unit.
Hypothesis on_signal_always : ∀ h em data, always P (on_signal h em data).

Lemma always_dispatch (em : Emission) : always P (dispatch on_signal em).
Proof.
  unfold dispatch, bind. apply always_bind; [apply always_get_connected|].
  intros cs. apply always_for_each. intros c. apply on_signal_always.
Qed.

Lemma always_call (c : Call) : P c → always P (call lib on_signal c).
Proof.
  intros Hc. unfold call, bind. apply always_bind; [by apply always_record|].
  intros _. apply always_bind; [apply always_get_history|]. intros h.
  apply always_bind; [|intros _; apply always_ret].
  apply always_for_each, always_dispatch.
Qed.

Lemma always_call_text (c : Call) : P c → always P (call_text lib on_signal c).
Proof.
  intros Hc. unfold call_text, bind. apply always_bind; [by apply always_record|].
  intros _. apply always_bind; [apply always_get_history|]. intros h.
  apply always_bind; [|intros _; apply always_ret].
  apply always_for_each, always_dispatch.
Qed.

Lemma always_connect (o : Obj) (sig : string) (h : H) (data : list Obj) :
  P (Connect o sig) → always P (connect lib on_signal o sig h data).
Proof.
  intros Hc. unfold connect. apply always_bind; [by apply always_call|].
  intros _. apply always_add_connection.
Qed.

Lemma always_while_iterate (bin : Obj) (fuel : nat) :
  P (Iterate bin) → always P (while_iterate lib on_signal fuel bin).
Proof.
  intros Hc. induction fuel as [|fuel IH]; cbn [while_iterate].
  - apply always_running.
  - unfold bind. apply always_bind; [by apply always_call|].
    intros more. destruct more; [apply IH|apply always_ret].
Qed.

End Calls.

End Always.

Section Registers.
Context {H : Type}.

Lemma registers_ret {A} (a : A) : registers [] (mret a : M H A).
Proof. intros w b w' [= <- <-]. by rewrite app_nil_r. Qed.

Lemma registers_raise {A} (cs : list (Connection H)) (e : Exn) :
  registers cs (raise e : M H A).
Proof. intros w b w'. discriminate. Qed.

Lemma registers_running {A} (cs : list (Connection H)) :
  registers cs (running : M H A).
Proof. intros w b w'. discriminate. Qed.

Lemma registers_bind {A B} (cs1 cs2 : list (Connection H))
  (m : M H A) (k : A → M H B) :
  registers cs1 m → (∀ a, registers cs2 (k a)) →
  registers (cs1 ++ cs2) (m ≫= k).
Proof.
  intros Hm Hk w b w'. unfold mbind, M_bind.
  destruct (m w) as [a w1|e w1|] eqn:Hmw; [|discriminate..].
  intros Hkw. destruct (Hm _ _ _ Hmw) as [H1 H1'].
  destruct (Hk _ _ _ _ Hkw) as [H2 H2'].
  split; [by rewrite H2, H1, app_assoc|congruence].
Qed.

(** A step that registers nothing, before or after one that does. *)
Lemma registers_then {A B} (cs : list (Connection H))
  (m : M H A) (k : A → M H B) :
  registers [] m → (∀ a, registers cs (k a)) → registers cs (m ≫= k).
Proof. intros Hm Hk. by apply (registers_bind [] cs). Qed.

Lemma registers_record (c : Call) : registers [] (record c : M H unit).
Proof.
  intros w b w'. unfold record. intros [= <- <-]. cbn. by rewrite app_nil_r.
Qed.

Lemma registers_get_history : registers [] (get_history : M H _).
Proof. intros w b w' [= <- <-]. by rewrite app_nil_r. Qed.

Lemma registers_get_connected : registers [] (get_connected : M H _).
Proof. intros w b w' [= <- <-]. by rewrite app_nil_r. Qed.

Lemma registers_add_connection (c : Connection H) :
  registers [c] (add_connection c).
Proof. intros w b w'. unfold add_connection. by intros [= <- <-]. Qed.

Lemma registers_for_each {A} (l : list A) (f : A → M H unit) :
  (∀ x, registers [] (f x)) → registers [] (for_each l f).
Proof.
  intros Hf. induction l as [|x l IH]; cbn [for_each]; [apply registers_ret|].
  apply registers_then; [apply Hf|intros _; apply IH].
Qed.

Section Calls.
Variable lib : Library.
Variable on_signal : H → Emission → list Obj → M H unit.
Hypothesis on_signal_registers : ∀ h em data, registers [] (on_signal h em data).

Lemma registers_dispatch (em : Emission) : registers [] (dispatch on_signal em).
Proof.
  unfold dispatch, bind. apply registers_then; [apply registers_get_connected|].
  intros cs. apply registers_for_each. intros c. apply on_signal_registers.
Qed.

Lemma registers_call (c : Call) : registers [] (call lib on_signal c).
Proof.
  unfold call, bind. apply registers_then; [apply registers_record|].
  intros _. apply registers_then; [apply registers_get_history|]. intros h.
  apply registers_then; [|intros _; apply registers_ret].
  apply registers_for_each, registers_dispatch.
Qed.

Lemma registers_call_text (c : Call) : registers [] (call_text lib on_signal c).
Proof.
  unfold call_text, bind. apply registers_then; [apply registers_record|].
  intros _. apply registers_then; [apply registers_get_history|]. intros h.
  apply registers_then; [|intros _; apply registers_ret].
  apply registers_for_each, registers_dispatch.
Qed.

End Calls.

End Registers.

End RunsFacts.

(** ** More on cp.py *)

Module CpRunFacts.
Import Binding BindingFacts Cp Runs RunsFacts CpFacts.


Lemma cp_call (lib : Library) (c : Call) (w : World Handler) :
  call lib c w = Done (answer lib (library_calls (c :: history w))) (after [c] w).
Proof. apply run_call. Qed.

Lemma add_each (lib : Library) (bin : Obj) (es : list Obj) :
  ∀ w, for_each es (λ e, call lib (Add bin e) ;; mret tt) w
       = Done tt (after (rev (map (Add bin) es)) w).
Proof.
  induction es as [|e es IH]; intros w; cbn [for_each map rev].
  - by rewrite after_nil.
  - unfold mbind, M_bind. rewrite cp_call. cbn. rewrite IH.
    by rewrite after_after.
Qed.

Lemma connect_all_from (lib : Library) (es : list Obj) :
  ∀ previous w,
  connect_all lib previous es w
  = Done tt (after (rev (successive ConnectElement
                           (match previous with
                            | Some p => p :: es
                            | None => es
                            end))) w).
Proof.
  induction es as [|e es IH]; intros previous w; cbn [connect_all].
  - destruct previous; cbn; by rewrite after_nil.
  - unfold mbind, M_bind. destruct previous as [p|].
    + fold (call lib). rewrite cp_call. cbn [mret M_ret]. rewrite IH.
      rewrite after_after. unfold successive. cbn [tail zip_with rev].
      done.
    + cbn [mret M_ret]. by rewrite IH.
Qed.

Lemma library_calls_adds (bin : Obj) (es : list Obj) :
  library_calls (rev (map (Add bin) es)) = rev (map (Add bin) es).
Proof.
  induction es as [|e es IH]; [done|]. cbn [map rev].
  by rewrite library_calls_app, IH.
Qed.

Lemma library_calls_connects (es : list Obj) :
  library_calls (rev (successive ConnectElement es))
  = rev (successive ConnectElement es).
Proof.
  unfold successive. generalize (tail es).
  induction es as [|e es IH]; intros [|e' k]; try done.
  cbn [zip_with rev]. by rewrite library_calls_app, IH.
Qed.

Lemma library_calls_built (src dst : string) (filters : list Obj) :
  library_calls (cp_built src dst filters) = cp_built src dst filters.
Proof.
  unfold cp_built. cbn [library_calls].
  by rewrite !library_calls_app, library_calls_adds, library_calls_connects.
Qed.

(** With two operands and both plugins found, [filter] builds the pipeline
    and goes on to the driver loop. *)
Lemma filter_builds (lib : Library) (fuel : nat) (argv0 src dst : string)
  (filters : list Obj) (w : World Handler) :
  answer lib (FactoryMake "filesrc" "source" :: NewPipeline "pipeline"
              :: library_calls (history w)) = true →
  answer lib (FactoryMake "filesink" "sink"
              :: SetProperty "source" "location" (VStr src)
              :: FactoryMake "filesrc" "source" :: NewPipeline "pipeline"
              :: library_calls (history w)) = true →
  filter lib fuel [argv0; src; dst] filters w
  = match while_iterate lib on_signal fuel "pipeline"
            (after (cp_built src dst filters) w) with
    | Done _ w' => Done 0%Z (after [SetState "pipeline" STATE_NULL] w')
    | Raised e w' => Raised e w'
    | Running => Running
    end.
Proof.
  intros Hsrc Hsink. unfold filter, gst_element_factory_make. cbn [length Nat.eqb negb].
  unfold bind, mbind, M_bind, index.
  repeat first [ rewrite cp_call | rewrite Hsrc | rewrite Hsink
               | progress cbn [mret M_ret history after app library_calls
                               connected idles lookup list_lookup] ].
  change ("source" :: (filters ++ ["sink"]))%list with (cp_elements filters).
  match goal with
  | |- context [for_each ?l ?f ?w0] =>
      change (for_each l f w0)
        with (for_each l (λ e, call lib (Add "pipeline" e) ;; mret tt) w0)
  end.
  rewrite add_each.
  rewrite connect_all_from, cp_call.
  rewrite !after_after.
  match goal with
  | |- context [while_iterate _ _ _ _ ?w1] =>
      replace w1 with (after (cp_built src dst filters) w)
  end.
  2: { unfold after, cp_built. cbn [history connected idles]. f_equal.
       cbn [app]. by rewrite <- !app_assoc. }
  destruct (while_iterate _ _ _ _ _) as [[] w1|e w1|]; [|done..].
  by rewrite cp_call.
Qed.

Lemma cp_loop_drains (lib : Library) (bin : Obj) (n : nat) :
  ∀ (fuel : nat) (w : World Handler),
  (∀ k, k < n →
     answer lib (repeat (Iterate bin) (S k) ++ library_calls (history w)) = true) →
  answer lib (repeat (Iterate bin) (S n) ++ library_calls (history w)) = false →
  n < fuel →
  while_iterate lib on_signal fuel bin w
  = Done tt (after (repeat (Iterate bin) (S n)) w).
Proof.
  induction n as [|n IH]; intros fuel w Hmore Hlast Hfuel;
    (destruct fuel as [|fuel]; [lia|]); cbn [while_iterate];
    unfold bind, mbind, M_bind; rewrite run_call; cbn [library_calls].
  - cbn in Hlast. by rewrite Hlast.
  - pose proof (Hmore 0%nat ltac:(lia)) as H0. cbn in H0. rewrite H0.
    rewrite IH; cbn [history library_calls].
    + unfold after. cbn [history connected idles].
      by rewrite (repeat_shift _ (S n)).
    + intros k Hk. rewrite repeat_shift. apply Hmore. lia.
    + by rewrite repeat_shift.
    + lia.
Qed.

Lemma cp_loop_runs (lib : Library) (bin : Obj) :
  ∀ (fuel : nat) (w : World Handler),
  (∀ k, k < fuel →
     answer lib (repeat (Iterate bin) (S k) ++ library_calls (history w)) = true) →
  while_iterate lib on_signal fuel bin w = Running.
Proof.
  induction fuel as [|fuel IH]; intros w Hmore; cbn [while_iterate]; [done|].
  unfold bind, mbind, M_bind. rewrite run_call. cbn [library_calls].
  pose proof (Hmore 0%nat ltac:(lia)) as H0. cbn in H0. rewrite H0.
  apply IH. intros k Hk. cbn [history library_calls].
  rewrite repeat_shift. apply Hmore. lia.
Qed.

(** X1: the linking loop of [filter] calls [previous.connect(e)] for each
    element of the list and the one that follows it, in order, whatever the
    library answers: one call less than there are elements, and none for an
    empty list or a single element. *)
Theorem connect_all_chain (lib : Library) (es : list Obj) (w : World Handler) :
  connect_all lib None es w
  = Done tt (after (rev (successive ConnectElement es)) w)
  ∧ length (successive ConnectElement es) = pred (length es).
Proof.
  split; [apply connect_all_from|].
  unfold successive. rewrite length_zip_with.
  destruct es as [|e es]; [done|]. cbn [tail length pred]. lia.
Qed.

(** X2: with two operands and both plugins found, [filter] puts [filesrc],
    the given filters in their order and [filesink] in the pipeline, calls
    [connect] on each with the next, sets the pipeline to PLAYING, calls
    [iterate] until it returns false, sets the pipeline to NULL and returns
    0, for any list of filters; no result but those of the two plugin
    lookups and of [iterate] is looked at. *)
Theorem filter_any_filters (lib : Library) (fuel n : nat)
  (argv0 src dst : string) (filters : list Obj) (w : World Handler) :
  answer lib (FactoryMake "filesrc" "source" :: NewPipeline "pipeline"
              :: library_calls (history w)) = true →
  answer lib (FactoryMake "filesink" "sink"
              :: SetProperty "source" "location" (VStr src)
              :: FactoryMake "filesrc" "source" :: NewPipeline "pipeline"
              :: library_calls (history w)) = true →
  (∀ k, k < n →
     answer lib (repeat (Iterate "pipeline") (S k) ++ cp_built src dst filters
                 ++ library_calls (history w)) = true) →
  answer lib (repeat (Iterate "pipeline") (S n) ++ cp_built src dst filters
              ++ library_calls (history w)) = false →
  n < fuel →
  filter lib fuel [argv0; src; dst] filters w
  = Done 0%Z (after (SetState "pipeline" STATE_NULL
                     :: repeat (Iterate "pipeline") (S n)
                     ++ cp_built src dst filters) w).
Proof.
  intros Hsrc Hsink Hmore Hlast Hfuel. rewrite filter_builds by done.
  rewrite (cp_loop_drains lib "pipeline" n); cbn [after history];
    rewrite ?library_calls_app, ?library_calls_built; try done.
  by rewrite after_after, after_after.
Qed.

Lemma filter_any_filters_witness :
  filter three_passes 4 ["cp.py"; "a"; "b"] [] start
  = Done 0%Z (mkWorld
      [SetState "pipeline" STATE_NULL;
       Iterate "pipeline"; Iterate "pipeline"; Iterate "pipeline";
       Iterate "pipeline";
       SetState "pipeline" STATE_PLAYING;
       ConnectElement "source" "sink";
       Add "pipeline" "sink"; Add "pipeline" "source";
       SetProperty "sink" "location" (VStr "b");
       FactoryMake "filesink" "sink";
       SetProperty "source" "location" (VStr "a");
       FactoryMake "filesrc" "source";
       NewPipeline "pipeline"] [] []).
Proof.
  apply (filter_any_filters three_passes 4 3 "cp.py" "a" "b" [] start).
  - reflexivity.
  - reflexivity.
  - intros k Hk. destruct k as [|[|[|k]]]; [reflexivity..|lia].
  - reflexivity.
  - lia.
Defined.

(** X3: cp.py names the first plugin it does not find and exits with -1
    without adding an element or changing a state.  The statistics plugin
    is looked up before the command line is read, so without it the usage
    line is never printed; the pipeline object exists when [filesrc] is
    looked up, and the source has its location when [filesink] is. *)
Theorem cp_reports_missing_plugin (lib : Library) (fuel : nat)
  (argv0 src dst : string) :
  (stats_found lib = false →
   ∀ argv, program lib fuel argv start
           = Raised (SystemExit (-1))
               (mkWorld [not_found "statistics";
                         FactoryMake "statistics" "stats"] [] []))
  ∧ (stats_found lib = true → filesrc_found lib = false →
     program lib fuel [argv0; src; dst] start
     = Raised (SystemExit (-1))
         (mkWorld (not_found "filesrc"
                   :: FactoryMake "filesrc" "source"
                   :: NewPipeline "pipeline" :: configured) [] []))
  ∧ (stats_found lib = true → filesrc_found lib = true →
     filesink_found lib src = false →
     program lib fuel [argv0; src; dst] start
     = Raised (SystemExit (-1))
         (mkWorld (not_found "filesink"
                   :: FactoryMake "filesink" "sink"
                   :: SetProperty "source" "location" (VStr src)
                   :: FactoryMake "filesrc" "source"
                   :: NewPipeline "pipeline" :: configured) [] [])).
Proof.
  split; [|split].
  - intros Hstats argv. unfold program, bind, mbind, M_bind.
    by rewrite main_without_statistics.
  - intros Hstats Hsrc. unfold program, bind, mbind, M_bind.
    rewrite main_configures_first by done.
    unfold filter, gst_element_factory_make, filesrc_found, configured in *.
    run. rewrite Hsrc. by run.
  - intros Hstats Hsrc Hsink. unfold program, bind, mbind, M_bind.
    rewrite main_configures_first by done.
    unfold filter, gst_element_factory_make, filesrc_found, filesink_found,
      configured in *.
    run. rewrite Hsrc. run. rewrite Hsink. by run.
Qed.

Lemma cp_reports_missing_plugin_witness :
  program refusing 0 [] start
  = Raised (SystemExit (-1))
      (mkWorld [not_found "statistics"; FactoryMake "statistics" "stats"] [] [])
  ∧ program no_filesink 0 ["cp.py"; "a"; "b"] start
    = Raised (SystemExit (-1))
        (mkWorld (not_found "filesink"
                  :: FactoryMake "filesink" "sink"
                  :: SetProperty "source" "location" (VStr "a")
                  :: FactoryMake "filesrc" "source"
                  :: NewPipeline "pipeline" :: configured) [] []).
Proof.
  split.
  - apply (proj1 (cp_reports_missing_plugin refusing 0 "" "" "")). reflexivity.
  - apply (proj2 (proj2 (cp_reports_missing_plugin no_filesink 0 "cp.py" "a" "b")));
      reflexivity.
Defined.

(** X4: cp.py leaves its driver loop only when [iterate] returns false: as
    long as every call of [iterate] reports more work the script is still
    running, having neither set the pipeline to NULL nor exited. *)
Theorem cp_runs_while_more (lib : Library) (fuel : nat) (argv0 src dst : string) :
  stats_found lib = true → filesrc_found lib = true →
  filesink_found lib src = true →
  (∀ k, k < fuel → more_work lib src dst k = true) →
  program lib fuel [argv0; src; dst] start = Running.
Proof.
  intros Hstats Hsrc Hsink Hmore. unfold program, bind, mbind, M_bind.
  rewrite main_configures_first by done.
  rewrite filter_builds by done.
  rewrite cp_loop_runs; [done|].
  intros k Hk. cbn [after history]. rewrite library_calls_app, library_calls_built.
  apply (Hmore k Hk).
Qed.

Lemma cp_runs_while_more_witness :
  program never_done 7 ["cp.py"; "a"; "b"] start = Running.
Proof.
  apply (cp_runs_while_more never_done 7 "cp.py" "a" "b"); reflexivity.
Defined.

End CpRunFacts.

(** ** More on f2f.py *)

Module F2fRunFacts.
Import Binding BindingFacts F2f Runs RunsFacts F2fFacts.

Lemma on_signal_prints (h : Handler) (em : Emission) (data : list Obj)
  (w : World Handler) :
  on_signal h em data w
  = Done tt (after [Print (sender em ++ " " ++ repr_tuple (args em ++ data))] w).
Proof. by destruct h. Qed.

Lemma on_signal_raises_nothing (E : Exn → World Handler → Prop)
  (h : Handler) (em : Emission) (data : list Obj) :
  raises E (on_signal h em data).
Proof. intros w e w'. by rewrite on_signal_prints. Qed.

Lemma assert_raises (b : bool) :
  raises (λ e (_ : World Handler), e = AssertionError) (assert b).
Proof. destruct b; intros w e w'; unfold assert, raise; [done|]. by intros [= <- _]. Qed.

Lemma main_raises (lib : Library) (fuel : nat) :
  raises (λ e _, e = AssertionError) (main lib fuel).
Proof.
  assert (∀ c, raises (λ e (_ : World Handler), e = AssertionError) (call lib c))
    as Hcall by (intros c; apply raises_call, on_signal_raises_nothing).
  assert (∀ o s h d, raises (λ e (_ : World Handler), e = AssertionError)
                            (connect lib on_signal o s h d)) as Hconnect.
  { intros o s h d. unfold connect. apply raises_bind; [apply Hcall|].
    intros _. apply raises_add_connection. }
  assert (raises (λ e (_ : World Handler), e = AssertionError)
                 (while_iterate lib on_signal fuel "pipeline")) as Hloop.
  { induction fuel as [|n IH]; cbn [while_iterate]; [apply raises_running|].
    unfold bind. apply raises_bind; [apply Hcall|].
    intros more. destruct more; [apply IH|apply raises_ret]. }
  unfold main, bind.
  repeat first [ apply Hcall | apply Hconnect | apply Hloop | apply assert_raises
               | apply raises_ret
               | apply raises_for_each; intros ?
               | apply raises_bind; [|intros ?] ].
Qed.

(** X5: f2f.py checks four results: the pipeline object, the link, and the
    two state changes.  Each check that fails raises [AssertionError] right
    after the call it checks (so the pipeline is not started when the link
    fails, and [iterate] is not called when PLAYING is refused), and the
    script raises nothing else. *)
Theorem f2f_assertions (lib : Library) (fuel : nat) (argv : list string) :
  (∀ e w, program lib fuel argv start = Raised e w → e = AssertionError)
  ∧ (answer lib [NewPipeline "pipeline"] = false →
     ∃ w, program lib fuel argv start = Raised AssertionError w
          ∧ library_calls (history w) = [NewPipeline "pipeline"])
  ∧ (answer lib [NewPipeline "pipeline"] = true →
     answer lib (tail playing) = false →
     ∃ w, program lib fuel argv start = Raised AssertionError w
          ∧ library_calls (history w) = tail playing)
  ∧ (answer lib [NewPipeline "pipeline"] = true →
     answer lib (tail playing) = true →
     answer lib playing = false →
     ∃ w, program lib fuel argv start = Raised AssertionError w
          ∧ library_calls (history w) = playing)
  ∧ (∀ n,
       answer lib [NewPipeline "pipeline"] = true →
       answer lib (tail playing) = true →
       answer lib playing = true →
       (∀ k, k < n → more_work lib k = true) →
       more_work lib n = false →
       n < fuel →
       answer lib (SetState "pipeline" STATE_NULL
                   :: repeat (Iterate "pipeline") (S n) ++ playing) = false →
       ∃ w, program lib fuel argv start = Raised AssertionError w
            ∧ library_calls (history w)
              = SetState "pipeline" STATE_NULL
                :: (repeat (Iterate "pipeline") (S n) ++ playing)%list).
Proof.
  split; [intros e w; apply main_raises|].
  assert (Hh : library_calls (history (start (H := Handler))) = []) by done.
  unfold program, main, call, bind, mbind, M_bind, more_work, playing in *.
  cbn [tail for_each] in *. unfold mbind, M_bind.
  split; [|split; [|split]].
  - intros Hbin. call_step Hh. rewrite Hbin. cbn [assert]. unfold raise.
    by exists w.
  - intros Hbin Hlink. call_step Hh. rewrite Hbin. cbn [assert].
    do 9 call_step Hh.
    call_step Hh. rewrite Hlink. cbn [assert]. unfold raise. by exists w9.
  - intros Hbin Hlink Hplay. call_step Hh. rewrite Hbin. cbn [assert].
    do 9 call_step Hh.
    call_step Hh. rewrite Hlink. cbn [assert].
    call_step Hh. rewrite Hplay. cbn [assert]. unfold raise. by exists w10.
  - intros n Hbin Hlink Hplay Hmore Hlast Hfuel Hnull.
    call_step Hh. rewrite Hbin. cbn [assert].
    do 9 call_step Hh.
    call_step Hh. rewrite Hlink. cbn [assert].
    call_step Hh. rewrite Hplay. cbn [assert]. unfold mret, M_ret.
    destruct (while_iterate_quiet lib on_signal on_signal_quiet "pipeline" n fuel w10)
      as (w11 & -> & Hw); rewrite ?Hh; try done.
    rewrite Hh in Hw.
    call_step Hw. rewrite Hnull. cbn [assert]. unfold raise.
    by exists w12.
Qed.

Lemma f2f_assertions_witness :
  ∃ w, program refusing 3 ["f2f.py"] start = Raised AssertionError w
       ∧ library_calls (history w) = [NewPipeline "pipeline"].
Proof.
  apply (proj1 (proj2 (f2f_assertions refusing 3 ["f2f.py"]))). reflexivity.
Defined.

Lemma main_always (lib : Library) (fuel : nat) :
  always (λ c, configures_sink c = false) (main lib fuel).
Proof.
  assert (∀ h em data,
            always (λ c, configures_sink c = false) (on_signal h em data))
    as Hsig.
  { intros h em data w Hw. rewrite on_signal_prints. cbn. by constructor. }
  unfold main, call, bind.
  repeat first [ apply always_call; [exact Hsig|reflexivity]
               | apply always_connect; [exact Hsig|reflexivity]
               | apply always_while_iterate; [exact Hsig|reflexivity]
               | apply always_assert
               | apply always_ret
               | apply always_for_each; intros ?
               | apply always_bind; [|intros ?] ].
Qed.

(** X6: f2f.py never sets a property of its fake sink: after the sink is
    created it is [src] that gets [silent] set a second time.  This holds
    for every run that ends, by returning or by an exception. *)
Theorem f2f_sink_not_configured (lib : Library) (fuel : nat) (argv : list string)
  (w : World Handler) :
  (program lib fuel argv start = Done tt w
   ∨ ∃ e, program lib fuel argv start = Raised e w) →
  ∀ prop v, SetProperty "sink" prop v ∉ history w.
Proof.
  intros Hrun prop v Hin.
  pose proof (main_always lib fuel start (Forall_nil_2 _)) as Hall.
  unfold program in Hrun.
  assert (Forall (λ c, configures_sink c = false) (history w)) as Hw.
  { destruct Hrun as [Hrun|[e Hrun]]; by rewrite Hrun in Hall. }
  rewrite Forall_forall in Hw. by specialize (Hw _ Hin).
Qed.

Lemma f2f_sink_not_configured_witness :
  ∃ w, program ten_buffers 11 ["f2f.py"] start = Done tt w
       ∧ ∀ prop v, SetProperty "sink" prop v ∉ history w.
Proof.
  assert (∃ w, program ten_buffers 11 ["f2f.py"] start = Done tt w)
    as [w Hw] by (eexists; vm_compute; reflexivity).
  exists w. split; [exact Hw|].
  apply (f2f_sink_not_configured ten_buffers 11 ["f2f.py"] w). by left.
Defined.

Lemma dispatch_handoff (em : Emission) (w : World Handler) :
  connected w = handoffs →
  dispatch on_signal em w
  = Done tt (after (if handed_off em then [handoff_line em] else []) w).
Proof.
  intros Hc. unfold dispatch, bind, mbind, M_bind, get_connected.
  rewrite Hc. unfold handoffs, handed_off, handoff_line.
  cbn [filter list_filter]. unfold matches. cbn [conn_obj conn_signal].
  repeat case_bool_decide; cbn [andb orb]; repeat case_decide;
    try congruence; cbn [for_each mret M_ret];
    unfold mbind, M_bind; rewrite ?on_signal_prints;
    cbn [conn_handler conn_data]; rewrite ?app_nil_r, ?after_nil; try done.
Qed.

Lemma for_each_handoff (ems : list Emission) :
  ∀ w : World Handler,
  connected w = handoffs →
  for_each ems (dispatch on_signal) w
  = Done tt (after (rev (map handoff_line (List.filter handed_off ems))) w).
Proof.
  induction ems as [|em ems IH]; intros w Hc; cbn [for_each List.filter map rev].
  - by rewrite after_nil.
  - unfold mbind, M_bind. rewrite dispatch_handoff by done.
    rewrite IH by done. rewrite after_after.
    destruct (handed_off em); cbn [map rev]; by rewrite ?app_nil_r.
Qed.

(** X7: once f2f.py has connected [handoff] to its two elements, a call
    into the library prints one line, the sender's name and the tuple of
    arguments, for each [handoff] signal that [src] or [sink] fires during
    the call, in the order the signals fire; any other signal prints
    nothing. *)
Theorem handoff_prints_each (lib : Library) (c : Call) (w : World Handler) :
  connected w = handoffs →
  call lib c w
  = Done (answer lib (library_calls (c :: history w)))
         (after (rev (map handoff_line
                        (List.filter handed_off
                           (emits lib (library_calls (c :: history w)))))
                 ++ [c]) w).
Proof.
  intros Hc. unfold call, Binding.call, bind, mbind, M_bind, record, get_history.
  cbn [history]. rewrite for_each_handoff by done. cbn [mret M_ret].
  f_equal. unfold after. cbn [history connected idles].
  by rewrite <- (app_assoc _ [c]).
Qed.

Lemma handoff_prints_each_witness :
  call ten_buffers (Iterate "pipeline") (mkWorld [] handoffs [])
  = Done true (mkWorld [Print "sink (buffer,)"; Print "src (buffer,)";
                        Iterate "pipeline"] handoffs []).
Proof.
  apply (handoff_prints_each ten_buffers (Iterate "pipeline")
           (mkWorld [] handoffs [])).
  reflexivity.
Defined.

End F2fRunFacts.

(** ** More on dvdplay.py *)

Module DvdRunFacts.
Import Binding BindingFacts DvdPlay Runs RunsFacts DvdFacts.

(** X8: with fewer than four operands dvdplay.py prints its usage line and
    exits with -1 before it creates the player or calls the library. *)
Theorem dvdplay_usage (lib : Library) (int : string → option Z) (fuel : nat)
  (argv0 : string) (operands : list string) :
  length operands < 4 →
  program lib int fuel (argv0 :: operands) start
  = Raised (SystemExit (-1)) (mkWorld [usage argv0; ThreadsInit] [] []).
Proof.
  intros Hl. unfold program, main, bind, mbind, M_bind, record, start.
  cbn [history connected idles].
  assert ((length (argv0 :: operands) <? 5)%nat = true) as ->.
  { apply Nat.ltb_lt. cbn. lia. }
  reflexivity.
Qed.

Lemma dvdplay_usage_witness :
  program always_done int_digit 0 ["dvdplay.py"; "/dev/dvd"; "1"] start
  = Raised (SystemExit (-1))
      (mkWorld [Print "usage: dvdplay.py dvdlocation title chapter angle";
                ThreadsInit] [] []).
Proof.
  apply (dvdplay_usage always_done int_digit 0 "dvdplay.py" ["/dev/dvd"; "1"]).
  cbn. lia.
Defined.

(** X9: title, chapter and angle are converted with [int] before the
    player is created: when one of them is not a number the script ends
    with [ValueError] having done nothing but [gtk.threads_init()], whatever
    operands follow the fourth, and this is the only way it raises
    [ValueError]. *)
Theorem dvdplay_bad_number (lib : Library) (int : string → option Z) (fuel : nat)
  (argv0 location a2 a3 a4 : string) (rest : list string) :
  (int a2 = None ∨ int a3 = None ∨ int a4 = None →
   program lib int fuel (argv0 :: location :: a2 :: a3 :: a4 :: rest) start
   = Raised ValueError (mkWorld [ThreadsInit] [] []))
  ∧ (∀ w,
       program lib int fuel (argv0 :: location :: a2 :: a3 :: a4 :: rest) start
       = Raised ValueError w →
       int a2 = None ∨ int a3 = None ∨ int a4 = None).
Proof.
  unfold program, main, bind, mbind, M_bind, record, start, to_int.
  cbn [history connected idles length Nat.ltb Nat.leb index lookup list_lookup
       mret M_ret].
  destruct (int a2) as [title|]; [|split; [done|by left]].
  destruct (int a3) as [chapter|]; [|split; [done|by right; left]].
  destruct (int a4) as [angle|]; [|split; [done|by right; right]].
  split; [by intros [?|[?|?]]|].
  intros w. cbn [mret M_ret].
  destruct (player_main _ _ _ _ _ _ _) as [r w1|e w1|] eqn:Hp; [|
    |discriminate].
  - by apply player_main_never_returns in Hp.
  - intros [= -> <-]. apply player_main_raises in Hp. by destruct Hp.
Qed.

Lemma dvdplay_bad_number_witness :
  program always_done int_digit 2 ["dvdplay.py"; "/dev/dvd"; "1"; "two"; "3"] start
  = Raised ValueError (mkWorld [ThreadsInit] [] []).
Proof.
  apply (proj1 (dvdplay_bad_number always_done int_digit 2
                  "dvdplay.py" "/dev/dvd" "1" "two" "3" [])).
  right; left. reflexivity.
Defined.

Lemma video_prefix (pad : string) :
  String.substring 0 6 pad = "video_" ↔ ∃ rest, pad = "video_" ++ rest.
Proof.
  split.
  - intros Hp.
    do 6 (destruct pad as [|? pad]; [discriminate|]).
    cbn in Hp. exists pad. cbn. 
    assert (String.substring 0 0 pad = "") as Hz by by destruct pad.
    rewrite Hz in Hp. by injection Hp as -> -> -> -> -> ->.
  - intros [rest ->]. cbn. by destruct rest.
Qed.

Ltac silent_calls Hs :=
  repeat first [ rewrite (call_silent _ _ _ _ Hs)
               | rewrite (call_text_silent _ _ _ _ Hs)
               | progress (unfold print, record)
               | progress cbn [mret M_ret history connected idles after app] ].

(** X10: [mpegparse_newpad] goes by the name of the new pad.  A pad whose
    name starts with [video_] is linked to the sink pad of the video queue
    and the video thread is added to the pipeline; the pad
    [private_stream_1.0] is linked to the audio queue and the audio thread is
    added; in both cases the pipeline is paused for the addition and set to
    PLAYING after it, and no result of a call is checked.  Any other pad is
    reported as unknown and nothing is called.  (Stated for a library that
    fires no signal during these calls.) *)
Theorem mpegparse_newpad_by_name (lib : Library) (depth : nat)
  (parser pad pipeline_arg : Obj) (w : World Handler) :
  silent lib →
  ((∃ rest, pad = "video_" ++ rest) →
   mpegparse_newpad (call lib depth) parser pad pipeline_arg w
   = Done tt (after (plugged pad v_queue v_thread ++ [announced pad]) w))
  ∧ (pad = "private_stream_1.0" →
     mpegparse_newpad (call lib depth) parser pad pipeline_arg w
     = Done tt (after (plugged pad a_queue a_thread ++ [announced pad]) w))
  ∧ ((∀ rest, pad ≠ "video_" ++ rest) → pad ≠ "private_stream_1.0" →
     mpegparse_newpad (call lib depth) parser pad pipeline_arg w
     = Done tt (after [Print ("unknown pad: " ++ pad); announced pad] w)).
Proof.
  intros Hs. unfold mpegparse_newpad, call, announced, plugged.
  split; [|split].
  - intros Hv. apply video_prefix in Hv.
    rewrite bool_decide_eq_true_2 by done.
    unfold mbind, M_bind. by silent_calls Hs.
  - intros ->. rewrite bool_decide_eq_false_2 by done.
    rewrite bool_decide_eq_true_2 by done.
    unfold mbind, M_bind. by silent_calls Hs.
  - intros Hv Ha. rewrite bool_decide_eq_false_2.
    2: { intros Hp. apply video_prefix in Hp as [rest ->]. by apply (Hv rest). }
    rewrite bool_decide_eq_false_2 by done.
    unfold mbind, M_bind. by silent_calls Hs.
Qed.

Lemma mpegparse_newpad_by_name_witness :
  mpegparse_newpad (call always_done 1) parse "video_00" pipeline start
  = Done tt (mkWorld
      [SetState "pipeline" STATE_PLAYING; Add "pipeline" "v_thread";
       SetState "pipeline" STATE_PAUSED; Link "video_00" "v_queue:sink";
       GetPad "v_queue" "sink";
       Print "***** a new pad video_00 was created"] [] [])
  ∧ mpegparse_newpad (call always_done 1) parse "subpicture_00" pipeline start
    = Done tt (mkWorld
        [Print "unknown pad: subpicture_00";
         Print "***** a new pad subpicture_00 was created"] [] []).
Proof.
  assert (silent always_done) as Hs by (intros h; reflexivity).
  split.
  - apply (proj1 (mpegparse_newpad_by_name always_done 1 parse "video_00"
                     pipeline start Hs)).
    by exists "00".
  - apply (proj2 (proj2 (mpegparse_newpad_by_name always_done 1 parse
                     "subpicture_00" pipeline start Hs))).
    + intros rest. discriminate.
    + discriminate.
Defined.


Lemma add_and_link_from (lib : Library) (depth : nat) (thread : Obj)
  (es : list Obj) :
  silent lib →
  ∀ (l : Obj) (w : World Handler),
  add_and_link (call lib depth) thread (Some l) es w
  = Done tt (after (rev (concat (zip_with (λ l e', [Add thread e'; Link l e'])
                                          (l :: es) es))) w).
Proof.
  intros Hs. induction es as [|e es IH]; intros l w; cbn [add_and_link].
  - by rewrite after_nil.
  - unfold mbind, M_bind, call. silent_calls Hs. fold (call lib depth).
    rewrite IH. rewrite !after_after. by cbn [zip_with concat rev app].
Qed.

(** X11: the loop of [build_video_thread], on any tuple of elements: every
    element is added to the thread, in order, and every element but the
    first is linked to the one before it right after it has been added;
    nothing is linked when there is one element or none.  (Stated for a
    library that fires no signal during these calls.) *)
Theorem add_and_link_chain (lib : Library) (depth : nat) (thread : Obj)
  (es : list Obj) (w : World Handler) :
  silent lib →
  add_and_link (call lib depth) thread None es w
  = Done tt (after (rev (chain thread es)) w)
  ∧ List.filter (λ c, match c with Add _ _ => true | _ => false end)
                (chain thread es)
    = map (Add thread) es
  ∧ List.filter (λ c, match c with Link _ _ => true | _ => false end)
                (chain thread es)
    = successive Link es.
Proof.
  intros Hs. split; [|split].
  - destruct es as [|e es]; cbn [add_and_link chain].
    + by rewrite after_nil.
    + unfold mbind, M_bind, call. silent_calls Hs. fold (call lib depth).
      rewrite add_and_link_from by done. rewrite after_after.
      by cbn [rev].
  - destruct es as [|e es]; [done|]. cbn [chain List.filter map]. f_equal.
    generalize e. induction es as [|e' es IH]; intros l; [done|].
    cbn [zip_with concat app List.filter map]. f_equal. apply IH.
  - destruct es as [|e es]; [done|]. unfold successive.
    cbn [chain List.filter tail].
    generalize e. induction es as [|e' es IH]; intros l; [done|].
    cbn [zip_with concat app List.filter]. f_equal. apply IH.
Qed.

Lemma add_and_link_chain_witness :
  add_and_link (call always_done 0) "v_thread" None ["q"; "dec"; "show"] start
  = Done tt (mkWorld [Link "dec" "show"; Add "v_thread" "show";
                      Link "q" "dec"; Add "v_thread" "dec";
                      Add "v_thread" "q"] [] []).
Proof.
  apply (add_and_link_chain always_done 0 "v_thread" ["q"; "dec"; "show"] start).
  intros h. reflexivity.
Defined.


Lemma registers_split {A B} (cs cs1 cs2 : list (Connection Handler))
  (m : M Handler A) (k : A → M Handler B) :
  registers cs1 m → (∀ a, registers cs2 (k a)) → cs = (cs1 ++ cs2)%list →
  registers cs (m ≫= k).
Proof. intros Hm Hk ->. by apply registers_bind. Qed.

Lemma on_signal_registers (lib : Library) (depth : nat) :
  ∀ h em data, registers [] (on_signal lib depth h em data).
Proof.
  induction depth as [|depth IH]; intros h em data; cbn [on_signal].
  - apply registers_running.
  - destruct h, (args em ++ data)%list as [|x [|y [|z l]]];
      try apply registers_ret.
    + unfold eof, print. apply registers_then; [apply registers_record|].
      intros _. apply registers_raise.
    + unfold mpegparse_newpad, print. repeat case_bool_decide;
        repeat first [ apply registers_call, IH | apply registers_record
                     | apply registers_ret
                     | apply registers_then; [|intros ?] ].
    + unfold dnprint, print, bind.
      apply registers_then; [apply registers_call_text, IH|].
      intros str. apply registers_record.
Qed.

Ltac registers_step lib depth :=
  lazymatch goal with
  | |- registers _ (Binding.call _ _ _) =>
      apply registers_call, on_signal_registers
  | |- registers _ (add_connection _) => apply registers_add_connection
  | |- registers _ (mret _) => apply registers_ret
  | |- registers _ (for_each _ _) => apply registers_for_each; intros ?
  | |- registers _ (_ ≫= _) =>
      eapply registers_split; [ |intros ?| ]
  end.

Lemma add_and_link_registers (lib : Library) (depth : nat) (thread : Obj)
  (es : list Obj) :
  ∀ last, registers [] (add_and_link (call lib depth) thread last es).
Proof.
  induction es as [|e es IH]; intros last; cbn [add_and_link].
  - apply registers_ret.
  - apply registers_then; [apply registers_call, on_signal_registers|].
    intros _. apply registers_then; [|intros _; apply IH].
    destruct last.
    + apply registers_then; [apply registers_call, on_signal_registers|].
      intros _. apply registers_ret.
    + apply registers_ret.
Qed.

Lemma build_registers (lib : Library) (depth : nat) (location : string)
  (title chapter angle : Z) :
  registers callbacks (build (call lib depth) location title chapter angle).
Proof.
  unfold build, build_video_thread, build_audio_thread, connect, call, callbacks.
  repeat first [ apply add_and_link_registers
               | registers_step lib depth ]; reflexivity.
Qed.

Lemma build_silent (lib : Library) (depth : nat) (location : string)
  (title chapter angle : Z) (w : World Handler) :
  silent lib →
  ∃ w', build (call lib depth) location title chapter angle w = Done 0%Z w'.
Proof.
  intros Hs. unfold build, build_video_thread, build_audio_thread, connect, call.
  cbn [add_and_link for_each]. unfold add_connection, mbind, M_bind.
  silent_calls Hs. eauto.
Qed.

(** X12: [build] connects three callbacks and no other: [dnprint] to
    [deep_notify] of the source, [mpegparse_newpad] to [new_pad] of the
    demultiplexer with the pipeline as user data, and [eof] to [eos] of the
    source, in this order; the callbacks that run while the pipeline is
    built connect nothing.  [build] can only return 0, and it does return
    when the library fires no signal. *)
Theorem build_connects_three (lib : Library) (depth : nat) (location : string)
  (title chapter angle : Z) (w : World Handler) :
  (∀ r w', build (call lib depth) location title chapter angle w = Done r w' →
           r = 0%Z
           ∧ connected w' = (connected w ++ callbacks)%list
           ∧ idles w' = idles w)
  ∧ (silent lib →
     ∃ w', build (call lib depth) location title chapter angle w = Done 0%Z w').
Proof.
  split; [|apply build_silent].
  intros r w' Hb. split; [by apply build_returns_0 in Hb|].
  by apply build_registers in Hb.
Qed.

Lemma build_connects_three_witness :
  ∃ w', build (call always_done 0) "/dev/dvd" 1 2 3 start = Done 0%Z w'
        ∧ connected w' = callbacks.
Proof.
  destruct (proj2 (build_connects_three always_done 0 "/dev/dvd" 1 2 3 start))
    as [w' Hw']; [intros h; reflexivity|].
  exists w'. split; [exact Hw'|].
  apply (proj1 (build_connects_three always_done 0 "/dev/dvd" 1 2 3 start)
           0%Z w' Hw').
Defined.


(** X13: [build] has no failing return, so the test [if ret: return ret] of
    [DVDPlayer.main] never takes its branch: [main] is [build] followed by
    [run], and it does not return. *)
Theorem player_main_always_runs (lib : Library) (fuel : nat) (location : string)
  (title chapter angle : Z) (w : World Handler) :
  player_main lib fuel location title chapter angle w
  = (build (call lib fuel) location title chapter angle ;; run lib fuel) w
  ∧ ∀ r w', player_main lib fuel location title chapter angle w ≠ Done r w'.
Proof.
  split.
  - unfold player_main, bind, mbind, M_bind.
    destruct (build _ _ _ _ _ w) as [r w1|e w1|] eqn:Hb; [|done..].
    by apply build_returns_0 in Hb as ->.
  - intros r w' Hp. by apply player_main_never_returns in Hp.
Qed.

Section NoTearDown.
Variable lib : Library.

Lemma on_signal_kept_up (depth : nat) :
  ∀ h em data, always (λ c, tears_down c = false) (on_signal lib depth h em data).
Proof.
  induction depth as [|depth IH]; intros h em data; cbn [on_signal].
  - apply always_running.
  - destruct h, (args em ++ data)%list as [|x [|y [|z l]]];
      try apply always_ret.
    + unfold eof, print. apply always_bind; [by apply always_record|].
      intros _. apply always_raise.
    + unfold mpegparse_newpad, print. repeat case_bool_decide;
        repeat first [ apply always_call; [exact IH|reflexivity]
                     | apply always_record; reflexivity
                     | apply always_ret
                     | apply always_bind; [|intros ?] ].
    + unfold dnprint, print, bind.
      apply always_bind; [apply always_call_text; [exact IH|reflexivity]|].
      intros str. by apply always_record.
Qed.

Ltac kept_up_step depth :=
  lazymatch goal with
  | |- always _ (Binding.call _ _ _) =>
      apply always_call; [apply on_signal_kept_up|reflexivity]
  | |- always _ (record _) => apply always_record; reflexivity
  | |- always _ (add_connection _) => apply always_add_connection
  | |- always _ (mret _) => apply always_ret
  | |- always _ (raise _) => apply always_raise
  | |- always _ get_idles => apply always_get_idles
  | |- always _ (set_idles _) => apply always_set_idles
  | |- always _ (for_each _ _) => apply always_for_each; intros ?
  | |- always _ (_ ≫= _) => apply always_bind; [|intros ?]
  end.

Lemma add_and_link_kept_up (depth : nat) (thread : Obj) (es : list Obj) :
  ∀ last, always (λ c, tears_down c = false) (add_and_link (call lib depth) thread last es).
Proof.
  induction es as [|e es IH]; intros last; cbn [add_and_link].
  - apply always_ret.
  - unfold call. apply always_bind; [kept_up_step depth|intros _].
    apply always_bind; [|intros _; apply IH].
    destruct last; repeat kept_up_step depth.
Qed.

Lemma build_kept_up (depth : nat) (location : string) (title chapter angle : Z) :
  always (λ c, tears_down c = false) (build (call lib depth) location title chapter angle).
Proof.
  unfold build, build_video_thread, build_audio_thread, connect, call.
  repeat first [ apply add_and_link_kept_up | kept_up_step depth ].
Qed.

Lemma run_idle_kept_up (depth : nat) (h : Handler) (data : list Obj) :
  always (λ c, tears_down c = false) (run_idle lib depth h data).
Proof.
  unfold run_idle, idle, call. destruct h, data as [|p [|q l]];
    repeat kept_up_step depth.
Qed.

Lemma run_kept_up (fuel : nat) : always (λ c, tears_down c = false) (run lib fuel).
Proof.
  unfold run, print, idle_add, bind, call.
  do 4 (apply always_bind; [repeat kept_up_step fuel|intros ?]).
  apply always_bind_dead; [|apply gtk_main_never_returns].
  unfold gtk_main. apply always_bind; [by apply always_record|]. intros _.
  apply always_bind; [|intros _; apply always_running].
  apply always_gtk_rounds. apply run_idle_kept_up.
Qed.

Lemma program_kept_up (int : string → option Z) (fuel : nat) (argv : list string) :
  always (λ c, tears_down c = false) (program lib int fuel argv).
Proof.
  assert (∀ i, always (λ c, tears_down c = false)
                      (index (H := Handler) argv i)) as Hindex.
  { intros i. unfold index. destruct (argv !! i);
      [apply always_ret|apply always_raise]. }
  assert (∀ s, always (λ c, tears_down c = false) (to_int int s)) as Hint.
  { intros s. unfold to_int. destruct (int s);
      [apply always_ret|apply always_raise]. }
  unfold program, main, player_main, print, bind.
  apply always_bind; [by apply always_record|]. intros _.
  apply always_bind; [|intros ?; apply always_raise].
  destruct (_ <? _)%nat;
    repeat first [ apply Hindex | apply Hint | apply build_kept_up
                 | kept_up_step fuel ].
  destruct (negb _); [apply always_ret|apply run_kept_up].
Qed.

End NoTearDown.

(** X14: dvdplay.py never undoes what [run] sets up.  The calls that follow
    [gtk.main()] in [run] are never reached and no callback makes them, so
    whenever the script ends the pipeline has not been set to NULL and the
    gtk lock taken by [gtk.threads_enter()] has not been released. *)
Theorem dvdplay_never_tears_down (lib : Library) (int : string → option Z)
  (fuel : nat) (argv : list string) (e : Exn) (w : World Handler) :
  program lib int fuel argv start = Raised e w →
  (∀ o, SetState o STATE_NULL ∉ history w) ∧ ThreadsLeave ∉ history w.
Proof.
  intros Hrun.
  pose proof (program_kept_up lib int fuel argv start (Forall_nil_2 _)) as Hall.
  rewrite Hrun in Hall. rewrite Forall_forall in Hall.
  split; [intros o Hin|intros Hin]; by specialize (Hall _ Hin).
Qed.

Lemma dvdplay_never_tears_down_witness :
  ∃ w, program eos_at_third int_digit 5
         ["dvdplay.py"; "/dev/dvd"; "1"; "2"; "3"] start
       = Raised (SystemExit 0) w
       ∧ (∀ o, SetState o STATE_NULL ∉ history w)
       ∧ ThreadsLeave ∉ history w.
Proof.
  assert (∃ w, program eos_at_third int_digit 5
                 ["dvdplay.py"; "/dev/dvd"; "1"; "2"; "3"] start
               = Raised (SystemExit 0) w)
    as [w Hw] by (eexists; vm_compute; reflexivity).
  exists w. split; [exact Hw|].
  exact (dvdplay_never_tears_down eos_at_third int_digit 5
           ["dvdplay.py"; "/dev/dvd"; "1"; "2"; "3"] (SystemExit 0) w Hw).
Defined.

Lemma idle_round_silent (lib : Library) (depth : nat) (p : Obj)
  (w : World Handler) :
  silent lib → idles w = [(idle_cb, [p])] →
  idle_round (run_idle lib depth) w = Done tt (after [Iterate p] w).
Proof.
  intros Hs Hi. unfold idle_round, bind, mbind, M_bind, get_idles.
  rewrite Hi. cbn [idle_pass run_idle]. unfold idle, bind, mbind, M_bind, call.
  rewrite (call_silent _ _ _ _ Hs). cbn [mret M_ret Z.eqb idles after].
  unfold set_idles, after. cbn [history connected idles]. by rewrite Hi.
Qed.

Lemma gtk_rounds_silent (lib : Library) (depth : nat) (p : Obj) (n : nat) :
  silent lib →
  ∀ w : World Handler,
  idles w = [(idle_cb, [p])] →
  gtk_rounds (run_idle lib depth) n w = Done tt (after (repeat (Iterate p) n) w).
Proof.
  intros Hs. induction n as [|n IH]; intros w Hi; cbn [gtk_rounds].
  - by rewrite after_nil.
  - unfold mbind, M_bind. rewrite (idle_round_silent lib depth p) by done.
    rewrite IH by done. rewrite after_after.
    by rewrite (repeat_shift _ n []), app_nil_r.
Qed.

(** X15: without an [eos] signal dvdplay.py does not end.  With a valid
    command line and a library that fires no signal the player is built,
    set to PLAYING and stays in the gtk main loop, calling [iterate] once
    per round, whatever [iterate] returns. *)
Theorem dvdplay_runs_forever (lib : Library) (int : string → option Z)
  (fuel : nat) (argv0 location a2 a3 a4 : string) (rest : list string) :
  silent lib →
  is_Some (int a2) → is_Some (int a3) → is_Some (int a4) →
  program lib int fuel (argv0 :: location :: a2 :: a3 :: a4 :: rest) start
  = Running.
Proof.
  intros Hs [title Ht] [chapter Hc] [angle Ha].
  unfold program, main, bind, mbind, M_bind, record, start, to_int.
  cbn [history connected idles length Nat.ltb Nat.leb index lookup list_lookup
       mret M_ret].
  rewrite Ht, Hc, Ha. cbn [mret M_ret]. unfold player_main, bind, mbind, M_bind.
  destruct (build_silent lib fuel location title chapter angle
              (mkWorld [ThreadsInit] [] []) Hs) as [w1 Hb].
  rewrite Hb. cbn [Z.eqb negb].
  apply build_registers in Hb as [_ Hi]. cbn [idles] in Hi.
  unfold run, print, record, idle_add, gtk_main, bind, mbind, M_bind, call,
    get_idles, set_idles.
  cbn [history connected idles].
  rewrite (call_silent _ _ _ _ Hs). cbn [history connected idles after].
  rewrite Hi. unfold record. cbn [history connected idles after app].
  by rewrite (gtk_rounds_silent lib fuel pipeline fuel Hs).
Qed.

Lemma dvdplay_runs_forever_witness :
  program always_done int_digit 9 ["dvdplay.py"; "/dev/dvd"; "1"; "2"; "3"] start
  = Running.
Proof.
  apply (dvdplay_runs_forever always_done int_digit 9
           "dvdplay.py" "/dev/dvd" "1" "2" "3" []).
  - intros h. reflexivity.
  - by eexists.
  - by eexists.
  - by eexists.
Defined.

Section Eos.
Variable lib : Library.
Variable k : nat.
Hypothesis Heos : eos_during k lib.

Ltac unsignalled_calls :=
  repeat first [ rewrite call_unsignalled by (rewrite Heos; reflexivity)
               | progress (unfold print, record)
               | progress cbn [mret M_ret history connected idles after app] ].

Lemma build_before_eos (depth : nat) (location : string)
  (title chapter angle : Z) (w : World Handler) :
  ∃ w', build (call lib depth) location title chapter angle w = Done 0%Z w'
        ∧ iterations (history w') = iterations (history w).
Proof.
  unfold build, build_video_thread, build_audio_thread, connect, call.
  cbn [add_and_link for_each]. unfold add_connection, mbind, M_bind.
  unsignalled_calls. eexists. split; [reflexivity|]. reflexivity.
Qed.

Lemma idle_round_before_eos (depth : nat) (p : Obj) (w : World Handler) :
  idles w = [(idle_cb, [p])] → iterations (history w) ≠ k →
  idle_round (run_idle lib depth) w = Done tt (after [Iterate p] w).
Proof.
  intros Hi Hk. unfold idle_round, bind, mbind, M_bind, get_idles.
  rewrite Hi. cbn [idle_pass run_idle]. unfold idle, bind, mbind, M_bind, call.
  rewrite call_unsignalled.
  2: { rewrite Heos. cbn [library_calls]. rewrite iterations_library_calls.
       by rewrite bool_decide_eq_false_2. }
  cbn [mret M_ret Z.eqb idles after].
  unfold set_idles, after. cbn [history connected idles]. by rewrite Hi.
Qed.

Lemma idle_round_at_eos (depth : nat) (p : Obj) (w : World Handler) :
  idles w = [(idle_cb, [p])] → connected w = callbacks →
  iterations (history w) = k →
  idle_round (run_idle lib (S depth)) w
  = Raised (SystemExit 0) (after [Print "EOS, quiting"; Iterate p] w).
Proof.
  intros Hi Hc Hk. unfold idle_round, bind, mbind, M_bind, get_idles.
  rewrite Hi. cbn [idle_pass run_idle]. unfold idle, bind, mbind, M_bind, call.
  unfold Binding.call, bind, mbind, M_bind, record, get_history.
  cbn [history]. rewrite Heos. cbn [library_calls].
  rewrite iterations_library_calls, bool_decide_eq_true_2 by done.
  cbn [for_each]. unfold mbind, M_bind, dispatch, bind, mbind, M_bind,
    get_connected, after. cbn [connected]. rewrite Hc.
  reflexivity.
Qed.

Lemma gtk_rounds_until_eos (depth : nat) (p : Obj) (n : nat) :
  ∀ w : World Handler,
  idles w = [(idle_cb, [p])] → connected w = callbacks →
  (iterations (history w) ≤ k)%nat → (k < iterations (history w) + n)%nat →
  ∃ w', gtk_rounds (run_idle lib (S depth)) n w = Raised (SystemExit 0) w'
        ∧ iterations (history w') = S k
        ∧ head (history w') = Some (Print "EOS, quiting").
Proof.
  induction n as [|n IH]; intros w Hi Hc Hle Hlt; [lia|].
  cbn [gtk_rounds]. unfold mbind, M_bind.
  destruct (decide (iterations (history w) = k)) as [Hk|Hk].
  - rewrite (idle_round_at_eos depth p) by done. eexists. split; [done|].
    split; [|done]. cbn [after history app]. unfold iterations in *. cbn.
    by rewrite Hk.
  - rewrite (idle_round_before_eos (S depth) p) by done.
    apply IH; cbn [after history connected idles app]; try done.
    + unfold iterations in *. cbn. lia.
    + unfold iterations in *. cbn. lia.
Qed.

End Eos.

(** X16: dvdplay.py ends at the first [eos] signal of its source.  With a
    valid command line and a library whose only signal is that [eos], fired
    during the call number [k] of [iterate], the player makes [k + 1] calls
    of [iterate], prints its message and exits with 0. *)
Theorem dvdplay_exits_at_eos (lib : Library) (int : string → option Z)
  (fuel k : nat) (argv0 location a2 a3 a4 : string) (rest : list string) :
  eos_during k lib →
  is_Some (int a2) → is_Some (int a3) → is_Some (int a4) →
  k < fuel →
  ∃ w, program lib int fuel (argv0 :: location :: a2 :: a3 :: a4 :: rest) start
       = Raised (SystemExit 0) w
       ∧ iterations (history w) = S k
       ∧ head (history w) = Some (Print "EOS, quiting").
Proof.
  intros Heos [title Ht] [chapter Hc] [angle Ha] Hk.
  unfold program, main, bind, mbind, M_bind, record, start, to_int.
  cbn [history connected idles length Nat.ltb Nat.leb index lookup list_lookup
       mret M_ret].
  rewrite Ht, Hc, Ha. cbn [mret M_ret]. unfold player_main, bind, mbind, M_bind.
  destruct (build_before_eos lib k Heos fuel location title chapter angle
              (mkWorld [ThreadsInit] [] [])) as (w1 & Hb & Hn).
  rewrite Hb. cbn [Z.eqb negb].
  apply build_registers in Hb as [Hconn Hi]. cbn [idles connected app] in Hi, Hconn.
  unfold run, print, record, idle_add, gtk_main, bind, mbind, M_bind, call,
    get_idles, set_idles.
  cbn [history connected idles].
  rewrite call_unsignalled by (rewrite Heos; reflexivity).
  cbn [history connected idles after].
  rewrite Hi. unfold record. cbn [history connected idles after app].
  destruct fuel as [|depth]; [lia|].
  destruct (gtk_rounds_until_eos lib k Heos depth pipeline (S depth)
              (mkWorld (GtkMain :: IdleAdd :: SetState pipeline STATE_PLAYING
                        :: ThreadsEnter :: Print "setting to PLAYING state"
                        :: history w1)
                       (connected w1) [(idle_cb, [pipeline])]))
    as (w' & Hr & Hw'); cbn [history connected idles]; try done.
  - cbn in Hn. unfold iterations in *. cbn. rewrite Hn. cbn. lia.
  - cbn in Hn. unfold iterations in *. cbn. rewrite Hn. cbn. lia.
  - rewrite Hr. by exists w'.
Qed.

Lemma dvdplay_exits_at_eos_witness :
  ∃ w, program eos_at_third int_digit 5
         ["dvdplay.py"; "/dev/dvd"; "1"; "2"; "3"] start
       = Raised (SystemExit 0) w
       ∧ iterations (history w) = 3%nat
       ∧ head (history w) = Some (Print "EOS, quiting").
Proof.
  apply (dvdplay_exits_at_eos eos_at_third int_digit 5 2
           "dvdplay.py" "/dev/dvd" "1" "2" "3" []).
  - intros h. reflexivity.
  - by eexists.
  - by eexists.
  - by eexists.
  - lia.
Defined.

End DvdRunFacts.
